(** * Listen-together relay: session registry and coordinator

    A shallow embedding of the Socket.IO server of this repository.  The
    repository holds the same server in two revisions:

    - [index.ts], the first revision, which keeps no display names;
    - the later revision (also compiled to [dist/index.js]), which records
      [socket.data.displayName] at join time and adds [media-share].

    The handlers that are the same in both revisions are modelled once; the
    handlers that differ live in the modules [Legacy] and [Server].

    Strings are sequences of 8-bit characters.  The registry [sessions] is a
    plain JavaScript object literal, so reading [sessions[code]] also finds
    the properties inherited from [Object.prototype]; the model writes that
    lookup out. *)

From Stdlib Require Import Ascii.
From stdpp Require Import gmap strings list fin_maps.

(** ** JavaScript values used by the handlers *)

(** A payload field that may be missing: [None] is [undefined]. *)
Definition truthy_str (s : string) : bool := negb (String.eqb s "").

Definition truthy_field (f : option string) : bool :=
  match f with
  | Some s => truthy_str s
  | None => false
  end.

(** WhiteSpace and LineTerminator code points below 256, the ones
    [String.prototype.trim] strips: TAB, LF, VT, FF, CR, SP and NBSP. *)
Definition is_white_space (c : ascii) : bool :=
  match c with
  | "009" | "010" | "011" | "012" | "013" | " " | "160" => true
  | _ => false
  end%char.

Fixpoint trim_start (s : string) : string :=
  match s with
  | EmptyString => EmptyString
  | String c s' => if is_white_space c then trim_start s' else s
  end.

Definition trim_end (s : string) : string :=
  String.rev (trim_start (String.rev s)).

Definition trim (s : string) : string := trim_end (trim_start s).

(** [x && x.trim()] as a condition. *)
Definition non_blank (f : option string) : bool :=
  match f with
  | Some s => truthy_str s && truthy_str (trim s)
  | None => false
  end.

(** ** The registry *)

Record session := { hostId : string }.

(** Own property names of [Object.prototype]; each holds a function or an
    object, hence a truthy value that has no [hostId]. *)
Definition object_prototype_keys : list string :=
  [ "constructor"; "__defineGetter__"; "__defineSetter__"; "hasOwnProperty";
    "__lookupGetter__"; "__lookupSetter__"; "isPrototypeOf";
    "propertyIsEnumerable"; "toString"; "valueOf"; "__proto__";
    "toLocaleString" ].

(** The result of reading [sessions[code]]. *)
Inductive property :=
  | Own (s : session)
  | Inherited
  | Undefined.

Definition sessions_get (sessions : gmap string session) (code : string) : property :=
  match sessions !! code with
  | Some s => Own s
  | None =>
      if bool_decide (code ∈ object_prototype_keys) then Inherited else Undefined
  end.

Definition truthy (p : property) : bool :=
  match p with
  | Own _ | Inherited => true
  | Undefined => false
  end.

(** [sessions[code].hostId]; [None] is [undefined]. *)
Definition host_of (p : property) : option string :=
  match p with
  | Own s => Some (hostId s)
  | Inherited | Undefined => None
  end.

(** [socket.id === sessions[code].hostId] *)
Definition is_host (sid : string) (p : property) : bool :=
  match host_of p with
  | Some h => String.eqb sid h
  | None => false
  end.

(** ** Code generator *)

Definition chars : string := "ABCDEFGHIJKLMNOPQRSTUVWXYZ0123456789".

(** [chars[i]] appended to a string: out of range the read is [undefined]. *)
Definition char_at (i : nat) : string :=
  match String.get i chars with
  | Some c => String c EmptyString
  | None => "undefined"
  end.

Section CodeGenerator.
(** The random source.  [Math.random()] lies in [0, 1), so
    [Math.floor(Math.random() * chars.length)] is an index below
    [chars.length]; [rnd k] stands for the [k]-th draw and is reduced modulo
    [chars.length] to such an index. *)
Variable rnd : nat → nat.

Definition random_index (k : nat) : nat := rnd k mod String.length chars.

(** The [for] loop: [n] more characters, reading draws from [k] on. *)
Fixpoint draw_code (n k : nat) (code : string) : string :=
  match n with
  | 0 => code
  | S n' => draw_code n' (S k) (code +:+ char_at (random_index k))
  end.

(** [generateCode()], started after [k] draws.  Each call is one attempt;
    [fuel] bounds the number of attempts.  The result carries the number of
    draws made so far. *)
Fixpoint generateCode (fuel : nat) (sessions : gmap string session) (k : nat)
  : option (string * nat) :=
  match fuel with
  | 0 => None
  | S fuel' =>
      let code := draw_code 6 k "" in
      if truthy (sessions_get sessions code)
      then generateCode fuel' sessions (k + 6)
      else Some (code, k + 6)
  end.
End CodeGenerator.

(** ** Connections, rooms and emitted events *)

(** What the transport keeps for a connection: the rooms it has joined, in
    joining order ([socket.rooms], which starts as the set holding the
    connection's own id), and [socket.data.displayName]. *)
Record socket := { rooms : list string; displayName : option string }.

Record state := {
  sessions : gmap string session;   (* the global [sessions] object *)
  sockets : gmap string socket;     (* live connections by [socket.id] *)
  draws : nat                       (* calls of [Math.random] so far *)
}.

Inductive event :=
  | SessionCreated (code : string)
  | UserJoined (userId : string) (name : option string) (isHost : bool)
  | SessionJoined (code : string) (isHost : bool) (name : string)
  | RequestState (forUser : string)
  | SyncState (data : string)
  | PlaybackControl (data : string)
  | HostTransferred (newHostId : string)
  | ChatMessage (user message time : string)
  | MediaShare (user fileUrl fileType : option string)
  | UserLeft (userId : string) (name : option string)
  | SessionEnded (message : string)
  | Error (message : string).

(** What a handler does to the outside, in program order.  A room emission
    records the connections that are in the room when it is made. *)
Inductive action :=
  | Emit (sid : string) (e : event)
      (* [socket.emit]: to the calling connection alone *)
  | ToRoom (room : string) (rcpt : gset string) (e : event)
      (* [io.to(room).emit] *)
  | ToOthers (room : option string) (rcpt : gset string) (e : event)
      (* [socket.to(room).emit]: the room without the caller *)
  | Ack (ok : bool).
      (* [callback(ok)] *)

Definition init : state := {| sessions := ∅; sockets := ∅; draws := 0 |}.

(** [io.on('connection')]: a new connection is in the room of its own id. *)
Definition connect (st : state) (sid : string) : state :=
  {| sessions := sessions st;
     sockets := <[sid := {| rooms := [sid]; displayName := None |}]> (sockets st);
     draws := draws st |}.

Definition rooms_of (st : state) (sid : string) : list string :=
  match sockets st !! sid with
  | Some sk => rooms sk
  | None => []
  end.

Definition name_of (st : state) (sid : string) : option string :=
  sockets st !! sid ≫= displayName.

Definition in_room (room : string) (sk : socket) : bool :=
  bool_decide (room ∈ rooms sk).

(** The connections that are in [room]. *)
Definition members (st : state) (room : string) : gset string :=
  dom (filter (λ p, in_room room p.2 = true) (sockets st)).

Definition join_room (room : string) (sk : socket) : socket :=
  if in_room room sk then sk
  else {| rooms := rooms sk ++ [room]; displayName := displayName sk |}.

Definition leave_room (room : string) (sk : socket) : socket :=
  {| rooms := filter (λ r, r ≠ room) (rooms sk); displayName := displayName sk |}.

Definition with_sockets (st : state) (f : gmap string socket → gmap string socket) : state :=
  {| sessions := sessions st; sockets := f (sockets st); draws := draws st |}.

Definition with_sessions (st : state) (f : gmap string session → gmap string session) : state :=
  {| sessions := f (sessions st); sockets := sockets st; draws := draws st |}.

(** [socket.join(room)], [socket.leave(room)], [socket.data.displayName = n] *)
Definition socket_join (st : state) (sid room : string) : state :=
  with_sockets st (alter (join_room room) sid).

Definition socket_leave (st : state) (sid room : string) : state :=
  with_sockets st (alter (leave_room room) sid).

Definition set_displayName (st : state) (sid n : string) : state :=
  with_sockets st
    (alter (λ sk, {| rooms := rooms sk; displayName := Some n |}) sid).

(** What the transport has done to a connection by the time it fires
    ['disconnect'] on it: the connection has left every room, its own
    included ([leaveAll] in socket.io's [_onclose]), so [socket.rooms] is
    empty; [socket.data] is still there. *)
Definition leave_all (st : state) (sid : string) : state :=
  with_sockets st
    (alter (λ sk, {| rooms := []; displayName := displayName sk |}) sid).

(** [Array.from(socket.rooms).find((r) => r !== socket.id && sessions[r])] *)
Definition current_session (st : state) (sid : string) : option string :=
  List.find
    (λ r, negb (String.eqb r sid) && truthy (sessions_get (sessions st) r))
    (rooms_of st sid).

(** The guard [!code || !sessions[code]]: [Some c] when it lets [c] through. *)
Definition known_session (st : state) (code : option string) : option string :=
  match code with
  | Some c =>
      if truthy_str c && truthy (sessions_get (sessions st) c) then Some c else None
  | None => None
  end.

(** The guard [!code || socket.id !== sessions[code].hostId]. *)
Definition hosted_session (st : state) (sid : string) (code : option string)
  : option string :=
  match code with
  | Some c =>
      if truthy_str c && is_host sid (sessions_get (sessions st) c) then Some c else None
  | None => None
  end.

(** ** Handlers shared by both revisions *)

Section CreateSession.
Variable rnd : nat → nat.

(** [create-session]; [None] when [generateCode] has not returned within
    [fuel] attempts. *)
Definition create_session (fuel : nat) (st : state) (sid : string)
  : option (state * list action) :=
  match generateCode rnd fuel (sessions st) (draws st) with
  | None => None
  | Some (code, k) =>
      let st1 := socket_join st sid code in
      Some ({| sessions := <[code := {| hostId := sid |}]> (sessions st1);
               sockets := sockets st1;
               draws := k |},
            [ Emit sid (SessionCreated code);
              Emit sid (UserJoined sid None true) ])
  end.
End CreateSession.

Definition transfer_host (st : state) (sid : string)
    (code : option string) (newHostId : string) : state * list action :=
  match known_session st code with
  | None => (st, [Emit sid (Error "Invalid session for host transfer")])
  | Some c =>
      if negb (is_host sid (sessions_get (sessions st) c))
      then (st, [Emit sid (Error "Only the current host can transfer host rights")])
      else
        let st1 := with_sessions st (insert c {| hostId := newHostId |}) in
        (st1, [ToRoom c (members st1 c) (HostTransferred newHostId)])
  end.

Definition playback_control (st : state) (sid : string) (data : string)
  : state * list action :=
  match hosted_session st sid (current_session st sid) with
  | None => (st, [Emit sid (Error "Only host can control playback")])
  | Some c => (st, [ToRoom c (members st c) (PlaybackControl data)])
  end.

Definition sync_state (st : state) (sid : string) (data : string)
  : state * list action :=
  match hosted_session st sid (current_session st sid) with
  | None => (st, [])
  | Some c => (st, [ToRoom c (members st c) (SyncState data)])
  end.

Definition provide_state (st : state) (sid : string) (forUser data : string)
  : state * list action :=
  match hosted_session st sid (current_session st sid) with
  | None => (st, [])
  | Some _ => (st, [ToRoom forUser (members st forUser) (SyncState data)])
  end.

(** [name && name.trim() ? name : "Guest"] *)
Definition name_or_guest (name : option string) : string :=
  if non_blank name then default "" name else "Guest".

(** The failure branch of [join-session]. *)
Definition join_failure (sid : string) (callback : bool) : list action :=
  (if callback then [Ack false] else [])
    ++ [Emit sid (Error "Invalid session code")].

(** The emissions of the success branch, made in state [st] after
    [socket.join(c)]. *)
Definition join_success (st : state) (sid c : string) (name : option string)
    (callback : bool) : list action :=
  let isHost := is_host sid (sessions_get (sessions st) c) in
  let dn := name_or_guest name in
  let host := host_of (sessions_get (sessions st) c) in
  [ ToRoom c (members st c) (UserJoined sid (Some dn) isHost);
    Emit sid (SessionJoined c isHost dn) ]
    ++ (if callback then [Ack true] else [])
    ++ [ ToOthers host
           (match host with
            | Some h => members st h ∖ {[sid]}
            | None => ∅
            end)
           (RequestState sid) ].

(** The part of [leave-session] and [disconnect] after the caller's session
    [c] is known: [user-left], and the end of the session when the caller
    is its host. *)
Definition depart (st : state) (sid c : string) (name : option string)
  : state * list action :=
  let left := ToRoom c (members st c) (UserLeft sid name) in
  if is_host sid (sessions_get (sessions st) c)
  then (with_sessions st (delete c),
        [ left; ToRoom c (members st c) (SessionEnded "Host left the session") ])
  else (st, [left]).

(** ** First revision: [index.ts] *)
Module Legacy.

Definition join_session (st : state) (sid : string)
    (code name : option string) (callback : bool) : state * list action :=
  match known_session st code with
  | None => (st, join_failure sid callback)
  | Some c =>
      let st1 := socket_join st sid c in
      (st1, join_success st1 sid c name callback)
  end.

Definition chat_message (st : state) (sid : string)
    (user : option string) (message time : string) : state * list action :=
  match current_session st sid with
  | Some c =>
      if truthy_str c
      then (st, [ToRoom c (members st c)
                   (ChatMessage (name_or_guest user) message time)])
      else (st, [])
  | None => (st, [])
  end.

Definition leave_session (st : state) (sid : string) (code : option string)
  : state * list action :=
  match known_session st code with
  | None => (st, [])
  | Some c => depart (socket_leave st sid c) sid c None
  end.

(** The body of the ['disconnect'] listener, as a function of the state it
    is run in.  The server runs it only through [on_close]. *)
Definition disconnect (st : state) (sid : string) : state * list action :=
  match current_session st sid with
  | Some c => if truthy_str c then depart st sid c None else (st, [])
  | None => (st, [])
  end.

(** The ['disconnect'] event as the server gets it: the transport has
    emptied the connection's rooms, then the listener runs. *)
Definition on_close (st : state) (sid : string) : state * list action :=
  disconnect (leave_all st sid) sid.

End Legacy.

(** ** Later revision (the one compiled to [dist/index.js]) *)
Module Server.

Definition join_session (st : state) (sid : string)
    (code name : option string) (callback : bool) : state * list action :=
  match known_session st code with
  | None => (st, join_failure sid callback)
  | Some c =>
      let st1 := socket_join st sid c in
      let st2 := set_displayName st1 sid (name_or_guest name) in
      (st2, join_success st2 sid c name callback)
  end.

(** [socket.data.displayName || (user && user.trim()) || "Guest"] *)
Definition chat_name (recorded user : option string) : string :=
  let supplied :=
    match user with
    | Some u =>
        if truthy_str u && truthy_str (trim u) then trim u else "Guest"
    | None => "Guest"
    end in
  match recorded with
  | Some n => if truthy_str n then n else supplied
  | None => supplied
  end.

Definition chat_message (st : state) (sid : string)
    (user : option string) (message time : string) : state * list action :=
  match current_session st sid with
  | Some c =>
      if truthy_str c
      then (st, [ToRoom c (members st c)
                   (ChatMessage (chat_name (name_of st sid) user) message time)])
      else (st, [])
  | None => (st, [])
  end.

(** [media-share] reads [sessions[code]] without the [!code] test, so a
    missing code is the property name ["undefined"]. *)
Definition media_share (st : state) (sid : string)
    (code fileUrl fileType user : option string) : state * list action :=
  let c := default "undefined" code in
  if truthy (sessions_get (sessions st) c)
  then (st, [ToRoom c (members st c) (MediaShare user fileUrl fileType)])
  else (st, []).

(** [socket.data.displayName || "Guest"] *)
Definition leaver_name (recorded : option string) : string :=
  match recorded with
  | Some n => if truthy_str n then n else "Guest"
  | None => "Guest"
  end.

Definition leave_session (st : state) (sid : string) (code : option string)
  : state * list action :=
  match known_session st code with
  | None => (st, [])
  | Some c =>
      let st1 := socket_leave st sid c in
      depart st1 sid c (Some (leaver_name (name_of st1 sid)))
  end.

(** The body of the ['disconnect'] listener, as a function of the state it
    is run in.  The server runs it only through [on_close]. *)
Definition disconnect (st : state) (sid : string) : state * list action :=
  match current_session st sid with
  | Some c =>
      if truthy_str c
      then depart st sid c (Some (leaver_name (name_of st sid)))
      else (st, [])
  | None => (st, [])
  end.

(** The ['disconnect'] event as the server gets it: the transport has
    emptied the connection's rooms, then the listener runs. *)
Definition on_close (st : state) (sid : string) : state * list action :=
  disconnect (leave_all st sid) sid.

End Server.

(** ** Allowed origins *)

(** [s.split(',')]: the pieces between commas, empty ones included. *)
Fixpoint split_comma (s : string) : list string :=
  match s with
  | EmptyString => [EmptyString]
  | String c s' =>
      if Ascii.eqb c "," then EmptyString :: split_comma s'
      else match split_comma s' with
           | piece :: pieces => String c piece :: pieces
           | [] => [String c EmptyString]
           end
  end.

(** [\w]: a letter, a digit or the underscore. *)
Definition is_word_char (c : ascii) : bool :=
  let n := nat_of_ascii c in
  (Nat.leb 48 n && Nat.leb n 57) || (Nat.leb 65 n && Nat.leb n 90)
  || (Nat.leb 97 n && Nat.leb n 122) || Nat.eqb n 95.

(** The class [[\w\-.:]]. *)
Definition is_origin_char (c : ascii) : bool :=
  is_word_char c || Ascii.eqb c "-" || Ascii.eqb c "." || Ascii.eqb c ":".

(** The rest of [s] after the literal [p], when [s] starts with it. *)
Fixpoint strip_prefix (p s : string) : option string :=
  match p, s with
  | EmptyString, _ => Some s
  | String a p', String b s' =>
      if Ascii.eqb a b then strip_prefix p' s' else None
  | String _ _, EmptyString => None
  end.

(** [/^https?:\/\/[\w\-.:]+$/.test(s)].  After [http] an [s] is taken when
    there is one; going back on it cannot help, since [:] would then have to
    match that [s]. *)
Definition origin_pattern (s : string) : bool :=
  match strip_prefix "http" s with
  | Some r =>
      let r' := match r with
                | String "s" t => t
                | _ => r
                end in
      match strip_prefix "://" r' with
      | Some host =>
          truthy_str host
            && forallb is_origin_char (String.list_ascii_of_string host)
      | None => false
      end
  | None => false
  end.

(** A character that is neither white space nor a comma. *)
Definition plain_char (c : ascii) : bool :=
  negb (is_white_space c) && negb (Ascii.eqb c ",").

(** The value given to the server's [cors.origin]: the string ['*'] or a
    list of origins. *)
Inductive cors_origins :=
  | AnyOrigin
  | Origins (l : list string).

(** The parsing of [process.env.CORS_ORIGIN] at start-up.  Nothing in the
    [try] block can throw on a string, and the [catch] branch gives ['*']
    as well. *)
Definition parse_cors_origin (env : option string) : cors_origins :=
  match env with
  | Some v =>
      if truthy_str v then
        let origins :=
          List.filter (λ origin, truthy_str origin && origin_pattern origin)
            (map trim (split_comma v)) in
        if Nat.eqb (length origins) 0 then AnyOrigin else Origins origins
      else AnyOrigin
  | None => AnyOrigin
  end.

(** ** Well-formed codes and registries *)

Definition is_code_char (c : ascii) : bool :=
  existsb (Ascii.eqb c) (String.list_ascii_of_string chars).

(** Six characters, each one of [chars]. *)
Definition is_code (code : string) : bool :=
  Nat.eqb (String.length code) 6
    && forallb is_code_char (String.list_ascii_of_string code).

(** Every key of the registry has the shape of a generated code. *)
Definition valid_registry (sessions : gmap string session) : Prop :=
  map_Forall (λ c _, is_code c = true) sessions.

(** The active sessions a connection is in: the rooms it has joined, other
    than its own, that are keys of the registry. *)
Definition memberships (st : state) (sid : string) : list string :=
  filter (λ r, r ≠ sid ∧ is_Some (sessions st !! r)) (rooms_of st sid).

(** The code announced by [create-session]. *)
Definition issued (out : list action) : list string :=
  match out with
  | Emit _ (SessionCreated c) :: _ => [c]
  | _ => []
  end.

Section CreateMany.
Variable rnd : nat → nat.
Variable fuel : nat.

(** A sequence of [create-session] requests, one per caller in [sids];
    the result lists the codes in the order they were issued. *)
Fixpoint create_many (st : state) (sids : list string)
  : option (state * list string) :=
  match sids with
  | [] => Some (st, [])
  | sid :: rest =>
      match create_session rnd fuel st sid with
      | None => None
      | Some (st1, out) =>
          match create_many st1 rest with
          | None => None
          | Some (st2, codes) => Some (st2, issued out ++ codes)
          end
      end
  end.
End CreateMany.

(** ** The server as a transition system *)

(** One transition per event the server reacts to, for either revision of a
    handler.  Connections come and go as the transport decides; [connect]
    and the loss of a connection's record are transitions of their own. *)
Inductive step (rnd : nat → nat) : state → state → Prop :=
  | step_connect st sid :
      step rnd st (connect st sid)
  | step_gone st sid :
      step rnd st (with_sockets st (delete sid))
  | step_create fuel st sid st' out :
      create_session rnd fuel st sid = Some (st', out) →
      step rnd st st'
  | step_transfer st sid code newHostId :
      step rnd st (transfer_host st sid code newHostId).1
  | step_playback st sid data :
      step rnd st (playback_control st sid data).1
  | step_sync st sid data :
      step rnd st (sync_state st sid data).1
  | step_provide st sid forUser data :
      step rnd st (provide_state st sid forUser data).1
  | step_join st sid code name callback :
      step rnd st (Server.join_session st sid code name callback).1
  | step_join_legacy st sid code name callback :
      step rnd st (Legacy.join_session st sid code name callback).1
  | step_chat st sid user message time :
      step rnd st (Server.chat_message st sid user message time).1
  | step_chat_legacy st sid user message time :
      step rnd st (Legacy.chat_message st sid user message time).1
  | step_media st sid code fileUrl fileType user :
      step rnd st (Server.media_share st sid code fileUrl fileType user).1
  | step_leave st sid code :
      step rnd st (Server.leave_session st sid code).1
  | step_leave_legacy st sid code :
      step rnd st (Legacy.leave_session st sid code).1
  | step_disconnect st sid :
      step rnd st (Server.on_close st sid).1
  | step_disconnect_legacy st sid :
      step rnd st (Legacy.on_close st sid).1.

Definition reachable (rnd : nat → nat) (st : state) : Prop :=
  rtc (step rnd) init st.

(** ** Sample runs *)

(** Two random sources: one that always draws 0, so that every attempt is
    ["AAAAAA"], and one whose [n]-th attempt draws [n] six times, giving
    ["AAAAAA"], ["BBBBBB"], and so on. *)
Definition rnd_zero : nat → nat := λ _, 0.
Definition rnd_blocks : nat → nat := λ k, k / 6.

Definition state_after (r : option (state * list action)) : state :=
  match r with
  | Some (st, _) => st
  | None => init
  end.

(** Connections ["h"] and ["g"], no session yet. *)
Definition lobby : state := connect (connect init "h") "g".

(** ["h"] has created a session; its code is ["AAAAAA"]. *)
Definition hosted : state := state_after (create_session rnd_blocks 1 lobby "h").

(** ["g"] has joined it under the name ["Sam"]. *)
Definition shared : state :=
  (Server.join_session hosted "g" (Some "AAAAAA") (Some "Sam") true).1.

(** ["h"] has created a second session, ["BBBBBB"], without leaving the
    first. *)
Definition two_sessions : state :=
  state_after (create_session rnd_blocks 1 hosted "h").

(** ["g"] has created a session of its own, ["BBBBBB"], beside the one of
    ["h"]. *)
Definition rival : state := state_after (create_session rnd_blocks 1 hosted "g").

(** ["g"], still hosting ["BBBBBB"], has joined the session of ["h"] as a
    guest. *)
Definition crossed : state :=
  (Server.join_session rival "g" (Some "AAAAAA") (Some "Sam") true).1.

(** ["g"] has asked to join the code ["constructor"] while no session
    exists. *)
Definition stray : state :=
  (Server.join_session lobby "g" (Some "constructor") (Some "Sam") true).1.

(** ** Outcomes the properties speak of *)

(** The session [code] is gone and the room was told: [user-left] and then
    [session-ended], both to the connections [rcpt]. *)
Definition ends_session (st : state) (sid code : string) (rcpt : gset string)
    (r : state * list action) : Prop :=
  sessions r.1 = delete code (sessions st) ∧
  ∃ name,
    r.2 = [ ToRoom code rcpt (UserLeft sid name);
            ToRoom code rcpt (SessionEnded "Host left the session") ].

(** The emissions of a departure: [user-left] with the given payload, and
    after it at most [session-ended]. *)
Definition announces_leave (out : list action) (c : string)
    (rcpt : gset string) (sid : string) (name : option string) : Prop :=
  out = [ToRoom c rcpt (UserLeft sid name)]
  ∨ out = [ ToRoom c rcpt (UserLeft sid name);
            ToRoom c rcpt (SessionEnded "Host left the session") ].

(** * Properties *)

(** ** The model at work *)

Example generateCode_first :
  generateCode (λ k, k) 1 ∅ 0 = Some ("ABCDEF", 6).
Proof. reflexivity. Qed.

Example trim_example : trim "  Bob " = "Bob".
Proof. reflexivity. Qed.


(** ** Strings and lookups *)

Lemma truthy_str_true s : truthy_str s = true ↔ s ≠ "".
Proof.
  unfold truthy_str. destruct (String.eqb_spec s ""); simpl; split; congruence.
Qed.

Lemma string_eqb_true (a b : string) : String.eqb a b = true ↔ a = b.
Proof. apply String.eqb_eq. Qed.

Lemma string_eqb_false (a b : string) : String.eqb a b = false ↔ a ≠ b.
Proof. apply String.eqb_neq. Qed.

Lemma sessions_get_own (m : gmap string session) c s :
  m !! c = Some s → sessions_get m c = Own s.
Proof. unfold sessions_get. by intros ->. Qed.

Lemma is_host_spec (m : gmap string session) sid c :
  is_host sid (sessions_get m c) = true ↔ m !! c = Some {| hostId := sid |}.
Proof.
  unfold is_host, sessions_get. destruct (m !! c) as [[h]|] eqn:E; simpl.
  - rewrite string_eqb_true. split; [by intros -> | congruence].
  - case_bool_decide; simpl; split; congruence.
Qed.

Lemma is_code_truthy c : is_code c = true → truthy_str c = true.
Proof. by destruct c. Qed.

Lemma is_code_not_inherited c :
  is_code c = true → c ∉ object_prototype_keys.
Proof.
  intros Hc Hin. unfold object_prototype_keys in Hin.
  repeat (apply elem_of_cons in Hin as [-> | Hin]; [by vm_compute in Hc |]).
  by apply elem_of_nil in Hin.
Qed.

(** On codes of the generated shape the inherited properties play no part:
    [sessions[code]] is truthy exactly for the keys of the registry. *)
Lemma truthy_get_code (m : gmap string session) c :
  is_code c = true → truthy (sessions_get m c) = true ↔ is_Some (m !! c).
Proof.
  intros Hc. unfold sessions_get. destruct (m !! c) eqn:E; simpl.
  - split; eauto.
  - rewrite bool_decide_eq_false_2 by by apply is_code_not_inherited.
    split; [done | by intros [? ?]].
Qed.

Lemma valid_registry_truthy (m : gmap string session) c s :
  valid_registry m → m !! c = Some s → truthy_str c = true.
Proof. intros Hv Hc. eapply is_code_truthy, Hv, Hc. Qed.

(** ** The code generator *)

Lemma char_at_code_char i :
  i < String.length chars →
  ∃ c, char_at i = String c EmptyString ∧ is_code_char c = true.
Proof.
  intros Hi. change (String.length chars) with 36 in Hi.
  do 36 (destruct i as [|i]; [by eexists |]). lia.
Qed.

Lemma random_index_bound rnd k : random_index rnd k < String.length chars.
Proof. unfold random_index. by apply Nat.mod_upper_bound. Qed.

Lemma length_append_char acc c :
  String.length (acc +:+ String c EmptyString) = S (String.length acc).
Proof. induction acc as [|a acc IH]; simpl; [done | by rewrite IH]. Qed.

Lemma code_chars_append_char acc c :
  forallb is_code_char (String.list_ascii_of_string acc) = true →
  is_code_char c = true →
  forallb is_code_char
    (String.list_ascii_of_string (acc +:+ String c EmptyString)) = true.
Proof.
  intros Hacc Hc. induction acc as [|a acc IH]; simpl in *.
  - by rewrite Hc.
  - apply andb_true_iff in Hacc as [-> Hacc]. by apply IH.
Qed.

(** The loop appends [n] characters of the alphabet to what it was given. *)
Lemma draw_code_shape rnd n k acc :
  forallb is_code_char (String.list_ascii_of_string acc) = true →
  String.length (draw_code rnd n k acc) = String.length acc + n ∧
  forallb is_code_char
    (String.list_ascii_of_string (draw_code rnd n k acc)) = true.
Proof.
  revert k acc. induction n as [|n IH]; intros k acc Hacc; simpl.
  - split; [lia | done].
  - destruct (char_at_code_char _ (random_index_bound rnd k)) as (c & -> & Hc).
    destruct (IH (S k) (acc +:+ String c EmptyString)) as [Hlen Hall].
    { by apply code_chars_append_char. }
    split; [| done]. rewrite Hlen, length_append_char. lia.
Qed.

Lemma draw_code_is_code rnd k : is_code (draw_code rnd 6 k "") = true.
Proof.
  destruct (draw_code_shape rnd 6 k "") as [Hlen Hall]; [done |].
  unfold is_code. by rewrite Hlen, Hall.
Qed.

(** What [generateCode] returns, and when it has not returned yet. *)
Lemma generateCode_spec rnd fuel (m : gmap string session) k :
  match generateCode rnd fuel m k with
  | Some (code, k') =>
      is_code code = true ∧ m !! code = None ∧
      ∃ n, n < fuel ∧ code = draw_code rnd 6 (k + 6 * n) "" ∧ k' = k + 6 * S n
  | None =>
      ∀ n, n < fuel → is_Some (m !! draw_code rnd 6 (k + 6 * n) "")
  end.
Proof.
  revert k. induction fuel as [|fuel IH]; intros k; [simpl; intros; lia |].
  cbn [generateCode].
  destruct (truthy (sessions_get m (draw_code rnd 6 k ""))) eqn:E.
  - apply truthy_get_code in E; [| apply draw_code_is_code].
    specialize (IH (k + 6)).
    destruct (generateCode rnd fuel m (k + 6)) as [[code k']|].
    + destruct IH as (? & ? & n & ? & -> & ->). split; [done |]. split; [done |].
      exists (S n). split; [lia |]. split; [f_equal; lia | lia].
    + intros [|n] Hn.
      * by replace (k + 6 * 0) with k by lia.
      * replace (k + 6 * S n) with (k + 6 + 6 * n) by lia. apply IH. lia.
  - split; [apply draw_code_is_code |]. split.
    + destruct (m !! draw_code rnd 6 k "") eqn:E'; [| done].
      by rewrite (sessions_get_own _ _ _ E') in E.
    + exists 0. split; [lia |]. split; [f_equal; lia | lia].
Qed.

Lemma is_code_char_spec a :
  is_code_char a = true → a ∈ String.list_ascii_of_string chars.
Proof.
  unfold is_code_char. intros (b & Hin & Hb)%existsb_exists.
  apply Ascii.eqb_eq in Hb as ->. by apply list_elem_of_In.
Qed.

Lemma is_code_spec code :
  is_code code = true →
  String.length code = 6
  ∧ ∀ a, a ∈ String.list_ascii_of_string code →
         a ∈ String.list_ascii_of_string chars.
Proof.
  unfold is_code. intros [Hlen Hall]%andb_true_iff. split.
  - by apply Nat.eqb_eq.
  - intros a Ha%list_elem_of_In. apply is_code_char_spec.
    rewrite forallb_forall in Hall. by apply Hall.
Qed.

(** ** Rooms and the membership scan *)

Lemma elem_of_members st room p :
  p ∈ members st room ↔ room ∈ rooms_of st p.
Proof.
  unfold members, rooms_of, in_room. rewrite elem_of_dom. split.
  - intros [sk [Hsk Hin]%map_lookup_filter_Some]. rewrite Hsk.
    by apply bool_decide_eq_true in Hin.
  - destruct (sockets st !! p) as [sk|] eqn:E; [| by intros ?%elem_of_nil].
    intros Hin. exists sk. apply map_lookup_filter_Some. split; [done |].
    by apply bool_decide_eq_true.
Qed.

Lemma rooms_of_socket_leave st sid c p :
  rooms_of (socket_leave st sid c) p =
  if decide (p = sid) then filter (λ r, r ≠ c) (rooms_of st p) else rooms_of st p.
Proof.
  unfold rooms_of, socket_leave, with_sockets. simpl.
  case_decide as Hp.
  - subst p. rewrite lookup_alter_eq. by destruct (sockets st !! sid).
  - by rewrite lookup_alter_ne.
Qed.

Lemma rooms_of_socket_join st sid c p :
  rooms_of (socket_join st sid c) p =
  if decide (p = sid)
  then (if decide (c ∈ rooms_of st p ∨ sockets st !! p = None)
        then rooms_of st p else rooms_of st p ++ [c])
  else rooms_of st p.
Proof.
  unfold rooms_of, socket_join, with_sockets. simpl.
  case_decide as Hp.
  - subst p. rewrite lookup_alter_eq.
    destruct (sockets st !! sid) as [sk|] eqn:E; simpl.
    + unfold join_room, in_room. destruct (decide (c ∈ rooms sk)) as [Hin | Hin].
      * rewrite bool_decide_eq_true_2 by done. by rewrite decide_True by auto.
      * rewrite bool_decide_eq_false_2 by done.
        by rewrite decide_False by (intros [? | ?]; done).
    + done.
  - by rewrite lookup_alter_ne.
Qed.

Lemma rooms_of_set_displayName st sid n p :
  rooms_of (set_displayName st sid n) p = rooms_of st p.
Proof.
  unfold rooms_of, set_displayName, with_sockets. simpl.
  destruct (decide (p = sid)) as [-> | Hp].
  - rewrite lookup_alter_eq. by destruct (sockets st !! sid).
  - by rewrite lookup_alter_ne.
Qed.

(** After [socket.leave(c)] the caller is out of room [c]; everyone else in
    it stays. *)
Lemma members_socket_leave st sid c :
  members (socket_leave st sid c) c = members st c ∖ {[sid]}.
Proof.
  apply set_eq. intros p.
  rewrite elem_of_difference, !elem_of_members, rooms_of_socket_leave.
  rewrite elem_of_singleton. case_decide as Hp.
  - rewrite list_elem_of_filter. subst p. split; [by intros [? _] | by intros [_ ?]].
  - split; [by intros ? | by intros [? _]].
Qed.

Lemma name_of_socket_leave st sid c :
  name_of (socket_leave st sid c) sid = name_of st sid.
Proof.
  unfold name_of, socket_leave, with_sockets. simpl.
  rewrite lookup_alter_eq. by destruct (sockets st !! sid).
Qed.

Lemma current_session_Some st sid c :
  current_session st sid = Some c →
  c ∈ rooms_of st sid ∧ c ≠ sid ∧ truthy (sessions_get (sessions st) c) = true.
Proof.
  unfold current_session. intros [Hin Hc]%find_some.
  apply andb_true_iff in Hc as [Hne Ht]. split; [by apply list_elem_of_In |].
  split; [| done]. apply negb_true_iff in Hne. by apply string_eqb_false.
Qed.

(** The scan depends on the caller's rooms and on which lookups are truthy. *)
Lemma current_session_ext st st' sid :
  rooms_of st' sid = rooms_of st sid →
  (∀ r, truthy (sessions_get (sessions st') r) = truthy (sessions_get (sessions st) r)) →
  current_session st' sid = current_session st sid.
Proof.
  intros Hr Ht. unfold current_session. rewrite Hr. clear Hr.
  induction (rooms_of st sid) as [|r l IH]; simpl; [done |].
  by rewrite Ht, IH.
Qed.

Lemma truthy_get_insert_present (m : gmap string session) c v r :
  is_Some (m !! c) →
  truthy (sessions_get (<[c := v]> m) r) = truthy (sessions_get m r).
Proof.
  intros [s Hs]. unfold sessions_get. destruct (decide (c = r)) as [-> | Hne].
  - by rewrite lookup_insert_eq, Hs.
  - by rewrite lookup_insert_ne.
Qed.

Lemma hosted_session_Some st sid code c :
  hosted_session st sid code = Some c ↔
  code = Some c ∧ c ≠ "" ∧ sessions st !! c = Some {| hostId := sid |}.
Proof.
  unfold hosted_session. destruct code as [c'|]; [| split; [done | by intros [? _]]].
  destruct (truthy_str c') eqn:Ht; simpl.
  - apply truthy_str_true in Ht.
    destruct (is_host sid (sessions_get (sessions st) c')) eqn:Hh.
    + apply is_host_spec in Hh. split; [by intros [= <-] | by intros ([= <-] & _)].
    + split; [done |]. intros ([= <-] & _ & Hs).
      apply is_host_spec in Hs. congruence.
  - split; [done |]. intros ([= <-] & Hne & _).
    apply truthy_str_true in Hne. congruence.
Qed.

Lemma hosted_session_None st sid code :
  hosted_session st sid code = None ↔
  ∀ c, code = Some c → c ≠ "" → sessions st !! c ≠ Some {| hostId := sid |}.
Proof.
  split.
  - intros Hn c -> Hne Hs.
    assert (hosted_session st sid (Some c) = Some c) as Hc
      by by apply hosted_session_Some.
    congruence.
  - intros H. destruct (hosted_session st sid code) as [c|] eqn:E; [| done].
    apply hosted_session_Some in E as (-> & ? & ?). by destruct (H c).
Qed.

Lemma known_session_Some st code c :
  known_session st code = Some c ↔
  code = Some c ∧ c ≠ "" ∧ truthy (sessions_get (sessions st) c) = true.
Proof.
  unfold known_session. destruct code as [c'|]; [| split; [done | by intros [? _]]].
  destruct (truthy_str c') eqn:Ht; simpl.
  - apply truthy_str_true in Ht.
    destruct (truthy (sessions_get (sessions st) c')) eqn:Hh.
    + split; [by intros [= <-] | by intros ([= <-] & _)].
    + split; [done |]. intros ([= <-] & _ & Hs). congruence.
  - split; [done |]. intros ([= <-] & Hne & _).
    apply truthy_str_true in Hne. congruence.
Qed.

Lemma elem_of_memberships st sid r :
  r ∈ memberships st sid ↔
  r ∈ rooms_of st sid ∧ r ≠ sid ∧ is_Some (sessions st !! r).
Proof. unfold memberships. rewrite list_elem_of_filter. tauto. Qed.

Lemma rooms_of_join_keeps st sid c p r :
  r ∈ rooms_of st p → r ∈ rooms_of (socket_join st sid c) p.
Proof.
  intros Hr. rewrite rooms_of_socket_join. repeat case_decide; try done.
  apply elem_of_app. by left.
Qed.

Lemma rooms_of_join_adds st sid c p r :
  r ∈ rooms_of (socket_join st sid c) p → r ∈ rooms_of st p ∨ r = c.
Proof.
  rewrite rooms_of_socket_join. repeat case_decide; auto.
  intros [? | ->%list_elem_of_singleton]%elem_of_app; auto.
Qed.

Lemma rooms_of_join_has st sid c :
  is_Some (sockets st !! sid) → c ∈ rooms_of (socket_join st sid c) sid.
Proof.
  intros [sk Hsk]. rewrite rooms_of_socket_join, decide_True by done.
  case_decide as Hd.
  - destruct Hd as [? | ?]; [done | congruence].
  - apply elem_of_app. right. by apply list_elem_of_singleton.
Qed.

(** Membership after the caller's rooms and the registry have grown by
    [c] at most. *)
Lemma memberships_grow st st' sid c :
  (∀ r, r ∈ rooms_of st sid → r ∈ rooms_of st' sid) →
  (∀ r, r ∈ rooms_of st' sid → r ∈ rooms_of st sid ∨ r = c) →
  (∀ r, is_Some (sessions st !! r) → is_Some (sessions st' !! r)) →
  (∀ r, is_Some (sessions st' !! r) → is_Some (sessions st !! r) ∨ r = c) →
  memberships st sid ⊆ memberships st' sid
  ∧ ∀ r, r ∈ memberships st' sid → r ∈ memberships st sid ∨ r = c.
Proof.
  intros Hr1 Hr2 Hs1 Hs2. split.
  - intros r (Hin & Hne & Hs)%elem_of_memberships.
    apply elem_of_memberships. auto.
  - intros r (Hin & Hne & Hs)%elem_of_memberships.
    destruct (Hr2 r Hin) as [Hin' | ->]; [| by right].
    destruct (Hs2 r Hs) as [Hs' | ->]; [| by right].
    left. by apply elem_of_memberships.
Qed.

Lemma join_memberships st sid c :
  memberships st sid ⊆ memberships (socket_join st sid c) sid
  ∧ ∀ r, r ∈ memberships (socket_join st sid c) sid →
         r ∈ memberships st sid ∨ r = c.
Proof.
  apply memberships_grow.
  - intros r. apply rooms_of_join_keeps.
  - intros r. apply rooms_of_join_adds.
  - by intros r.
  - intros r. by left.
Qed.

Lemma memberships_set_displayName st sid n :
  memberships (set_displayName st sid n) sid = memberships st sid.
Proof. unfold memberships. by rewrite rooms_of_set_displayName. Qed.

(** ** What the handlers do *)

Lemma depart_host st sid c name :
  sessions st !! c = Some {| hostId := sid |} →
  depart st sid c name =
    (with_sessions st (delete c),
     [ ToRoom c (members st c) (UserLeft sid name);
       ToRoom c (members st c) (SessionEnded "Host left the session") ]).
Proof. intros Hs%is_host_spec. unfold depart. by rewrite Hs. Qed.

Lemma depart_not_host st sid c name :
  sessions st !! c ≠ Some {| hostId := sid |} →
  depart st sid c name = (st, [ToRoom c (members st c) (UserLeft sid name)]).
Proof.
  intros Hs. unfold depart.
  destruct (is_host sid (sessions_get (sessions st) c)) eqn:E; [| done].
  by apply is_host_spec in E.
Qed.

(** [depart] keeps every session other than one hosted by the caller. *)
Lemma depart_keeps st sid c name code s :
  sessions st !! code = Some s → hostId s ≠ sid →
  sessions (depart st sid c name).1 !! code = Some s.
Proof.
  intros Hs Hne. unfold depart.
  destruct (is_host sid (sessions_get (sessions st) c)) eqn:E; [| done].
  apply is_host_spec in E. simpl.
  rewrite lookup_delete_ne; [done |]. intros ->. rewrite Hs in E.
  by simplify_eq.
Qed.

Lemma not_host_of st sid c s :
  sessions st !! c = Some s → hostId s ≠ sid →
  sessions st !! c ≠ Some {| hostId := sid |}.
Proof. intros Hs Hne Hs'. rewrite Hs in Hs'. by simplify_eq. Qed.

Lemma playback_control_fst st sid data : (playback_control st sid data).1 = st.
Proof. unfold playback_control. by destruct (hosted_session _ _ _). Qed.

Lemma provide_state_fst st sid forUser data :
  (provide_state st sid forUser data).1 = st.
Proof. unfold provide_state. by destruct (hosted_session _ _ _). Qed.

(** A caller that is not the host of the session its room scan finds does
    not pass the host guard. *)
Lemma scan_not_hosted st sid :
  (∀ c s, current_session st sid = Some c → sessions st !! c = Some s →
          hostId s ≠ sid) →
  hosted_session st sid (current_session st sid) = None.
Proof.
  intros Hnot. apply hosted_session_None. intros c Hc _ Hs.
  by apply (Hnot c _ Hc Hs).
Qed.

Lemma transfer_host_by_host st h code newHostId :
  sessions st !! code = Some {| hostId := h |} → code ≠ "" →
  transfer_host st h (Some code) newHostId =
    (with_sessions st (insert code {| hostId := newHostId |}),
     [ToRoom code (members st code) (HostTransferred newHostId)]).
Proof.
  intros Hs Hne. unfold transfer_host.
  assert (known_session st (Some code) = Some code) as ->.
  { apply known_session_Some. split; [done |]. split; [done |].
    by rewrite (sessions_get_own _ _ _ Hs). }
  by rewrite (proj2 (is_host_spec _ _ _) Hs).
Qed.

Lemma current_session_transfer st code v sid :
  is_Some (sessions st !! code) →
  current_session (with_sessions st (insert code v)) sid = current_session st sid.
Proof.
  intros Hs. apply current_session_ext; [done |].
  intros r. by apply truthy_get_insert_present.
Qed.

Lemma depart_announces st sid c name :
  announces_leave (depart st sid c name).2 c (members st c) sid name.
Proof.
  unfold depart, announces_leave.
  destruct (is_host sid (sessions_get (sessions st) c)); simpl; auto.
Qed.

Lemma leaver_name_recorded r : r ≠ "" → Server.leaver_name (Some r) = r.
Proof. intros Hr%truthy_str_true. simpl. by rewrite Hr. Qed.


(** What [create-session] does when the generator returns [code]. *)
Lemma create_session_spec rnd fuel st sid :
  match create_session rnd fuel st sid with
  | Some (st', out) =>
      ∃ code,
        out = [ Emit sid (SessionCreated code);
                Emit sid (UserJoined sid None true) ]
        ∧ is_code code = true
        ∧ sessions st !! code = None
        ∧ sessions st' = <[code := {| hostId := sid |}]> (sessions st)
        ∧ sockets st' = sockets (socket_join st sid code)
  | None => generateCode rnd fuel (sessions st) (draws st) = None
  end.
Proof.
  unfold create_session.
  pose proof (generateCode_spec rnd fuel (sessions st) (draws st)) as Hg.
  destruct (generateCode rnd fuel (sessions st) (draws st)) as [[code k]|];
    [| done].
  destruct Hg as (Hc & Hfree & _). by exists code.
Qed.

Lemma valid_registry_insert (m : gmap string session) code v :
  valid_registry m → is_code code = true → valid_registry (<[code := v]> m).
Proof. intros Hv Hc. by apply map_Forall_insert_2. Qed.

Lemma valid_registry_delete (m : gmap string session) code :
  valid_registry m → valid_registry (delete code m).
Proof. intros Hv. by apply map_Forall_delete. Qed.

(** The registry keeps its shape under [create-session]. *)
Lemma create_session_valid rnd fuel st sid st' out :
  valid_registry (sessions st) →
  create_session rnd fuel st sid = Some (st', out) →
  valid_registry (sessions st').
Proof.
  intros Hv Hcr. pose proof (create_session_spec rnd fuel st sid) as Hsp.
  rewrite Hcr in Hsp. destruct Hsp as (code & _ & Hc & _ & -> & _).
  by apply valid_registry_insert.
Qed.

Lemma create_many_spec rnd fuel sids : ∀ st,
  match create_many rnd fuel st sids with
  | Some (st', codes) =>
      NoDup codes
      ∧ length codes = length sids
      ∧ (∀ c, c ∈ codes → sessions st !! c = None)
      ∧ dom (sessions st') = dom (sessions st) ∪ list_to_set codes
  | None => ∃ st1, generateCode rnd fuel (sessions st1) (draws st1) = None
  end.
Proof.
  induction sids as [|sid rest IH]; intros st; simpl.
  - split; [constructor |]. split; [done |].
    split; [by intros c ?%elem_of_nil |]. by rewrite (right_id_L ∅ (∪)).
  - pose proof (create_session_spec rnd fuel st sid) as Hsp.
    destruct (create_session rnd fuel st sid) as [[st1 out]|]; [| by exists st].
    destruct Hsp as (code & -> & _ & Hfree & Hst1 & _).
    specialize (IH st1).
    destruct (create_many rnd fuel st1 rest) as [[st2 codes]|]; [| done].
    destruct IH as (Hnd & Hlen & Hnew & Hdom). simpl.
    split; [| split; [| split]].
    + constructor; [| done]. intros Hin%Hnew.
      by rewrite Hst1, lookup_insert_eq in Hin.
    + by rewrite Hlen.
    + intros c [-> | Hin%Hnew]%elem_of_cons; [done |].
      rewrite Hst1 in Hin. by apply lookup_insert_None in Hin as [? _].
    + rewrite Hdom, Hst1, dom_insert_L, (assoc_L (∪)).
      by rewrite (comm_L (∪) (dom (sessions st)) {[code]}).
Qed.

Lemma rooms_of_leave_all st sid p :
  rooms_of (leave_all st sid) p = if decide (p = sid) then [] else rooms_of st p.
Proof.
  unfold rooms_of, leave_all, with_sockets. simpl. case_decide as Hp.
  - subst p. rewrite lookup_alter_eq. by destruct (sockets st !! sid).
  - by rewrite lookup_alter_ne.
Qed.

(** With its rooms emptied, the scan of the ['disconnect'] listener finds
    nothing, and the listener returns at once. *)
Lemma on_close_spec st sid :
  Server.on_close st sid = (leave_all st sid, [])
  ∧ Legacy.on_close st sid = (leave_all st sid, []).
Proof.
  assert (current_session (leave_all st sid) sid = None) as Hnone.
  { unfold current_session. by rewrite rooms_of_leave_all, decide_True. }
  unfold Server.on_close, Legacy.on_close, Server.disconnect, Legacy.disconnect.
  by rewrite Hnone.
Qed.

(** ** The registry holds generated codes only *)

Lemma depart_valid st sid c name :
  valid_registry (sessions st) →
  valid_registry (sessions (depart st sid c name).1).
Proof.
  intros Hv. unfold depart.
  destruct (is_host sid (sessions_get (sessions st) c)); [| done].
  by apply valid_registry_delete.
Qed.

Lemma transfer_host_valid st sid code newHostId :
  valid_registry (sessions st) →
  valid_registry (sessions (transfer_host st sid code newHostId).1).
Proof.
  intros Hv. unfold transfer_host.
  destruct (known_session st code) as [c|]; [| done].
  destruct (is_host sid (sessions_get (sessions st) c)) eqn:Hh; [| done].
  apply is_host_spec in Hh. simpl.
  apply valid_registry_insert; [done |]. by apply (Hv c _ Hh).
Qed.

Lemma step_valid rnd st st' :
  step rnd st st' → valid_registry (sessions st) → valid_registry (sessions st').
Proof.
  intros Hstep Hv. destruct Hstep; try done.
  - by eapply create_session_valid.
  - by apply transfer_host_valid.
  - by rewrite playback_control_fst.
  - unfold sync_state. by destruct (hosted_session _ _ _).
  - by rewrite provide_state_fst.
  - unfold Server.join_session. by destruct (known_session _ _).
  - unfold Legacy.join_session. by destruct (known_session _ _).
  - unfold Server.chat_message. destruct (current_session _ _) as [c|]; [| done].
    by destruct (truthy_str c).
  - unfold Legacy.chat_message. destruct (current_session _ _) as [c|]; [| done].
    by destruct (truthy_str c).
  - unfold Server.media_share. by destruct (truthy _).
  - unfold Server.leave_session. destruct (known_session _ _); [| done].
    by apply depart_valid.
  - unfold Legacy.leave_session. destruct (known_session _ _); [| done].
    by apply depart_valid.
  - by rewrite (proj1 (on_close_spec st sid)).
  - by rewrite (proj2 (on_close_spec st sid)).
Qed.

(** Every key of the registry of a reachable state is a generated code: six
    characters of [chars], so never empty and never a property name of
    [Object.prototype]. *)
Lemma reachable_valid rnd st :
  reachable rnd st → valid_registry (sessions st).
Proof.
  unfold reachable. intros Hr.
  assert (valid_registry (sessions init)) as Hinit by apply map_Forall_empty.
  revert Hinit. induction Hr as [st | st st1 st2 Hstep _ IH]; [done |].
  intros Hv. apply IH. by eapply step_valid.
Qed.

(** ** Sample runs *)

Example hosted_registry :
  sessions hosted = {[ "AAAAAA" := {| hostId := "h" |} ]}
  ∧ rooms_of hosted "h" = ["h"; "AAAAAA"].
Proof. by vm_compute. Qed.

Example shared_rooms :
  rooms_of shared "g" = ["g"; "AAAAAA"] ∧ name_of shared "g" = Some "Sam"
  ∧ members shared "AAAAAA" = {[ "h"; "g" ]}.
Proof. by vm_compute. Qed.

Example two_sessions_registry :
  sessions two_sessions =
    {[ "AAAAAA" := {| hostId := "h" |}; "BBBBBB" := {| hostId := "h" |} ]}
  ∧ rooms_of two_sessions "h" = ["h"; "AAAAAA"; "BBBBBB"].
Proof. by vm_compute. Qed.

(** The sample states are states of the server. *)
Lemma lobby_reachable : reachable rnd_blocks lobby.
Proof.
  unfold reachable, lobby.
  eapply rtc_r; [eapply rtc_once |]; apply step_connect.
Qed.

Lemma hosted_reachable : reachable rnd_blocks hosted.
Proof.
  eapply rtc_r; [apply lobby_reachable |].
  eapply (step_create _ 1 lobby "h"). vm_compute. reflexivity.
Qed.

Lemma shared_reachable : reachable rnd_blocks shared.
Proof. eapply rtc_r; [apply hosted_reachable |]. apply step_join. Qed.

Lemma two_sessions_reachable : reachable rnd_blocks two_sessions.
Proof.
  eapply rtc_r; [apply hosted_reachable |].
  eapply (step_create _ 1 hosted "h"). vm_compute. reflexivity.
Qed.

Lemma crossed_reachable : reachable rnd_blocks crossed.
Proof.
  eapply rtc_r; [eapply rtc_r; [apply hosted_reachable |] |].
  - eapply (step_create _ 1 hosted "g"). vm_compute. reflexivity.
  - apply step_join.
Qed.

(** ** Host departure (C1) *)

Lemma valid_registry_shared : valid_registry (sessions shared).
Proof.
  unfold valid_registry.
  by apply (bool_decide_unpack (map_Forall _ _)); vm_compute.
Defined.

(** C1 at a failing input.  ["h"] hosts the session ["AAAAAA"] and ["g"]
    is its guest.  When ["h"] leaves with [leave-session], the room gets
    [user-left] and [session-ended] and the session is deleted.  When ["h"]
    disconnects, the listener scans rooms that the transport has already
    emptied: nothing is emitted and the session stays in the registry with
    ["h"] as its host.  Both revisions. *)
Example C1_host_disconnect_ends_nothing :
  sessions shared !! "AAAAAA" = Some {| hostId := "h" |}
  ∧ members shared "AAAAAA" = {[ "h"; "g" ]}
  ∧ (Server.on_close shared "h").2 = []
  ∧ sessions (Server.on_close shared "h").1 !! "AAAAAA" = Some {| hostId := "h" |}
  ∧ (Legacy.on_close shared "h").2 = []
  ∧ sessions (Legacy.on_close shared "h").1 !! "AAAAAA" = Some {| hostId := "h" |}
  ∧ (Server.leave_session shared "h" (Some "AAAAAA")).2 =
      [ ToRoom "AAAAAA" {[ "g" ]} (UserLeft "h" (Some "Guest"));
        ToRoom "AAAAAA" {[ "g" ]} (SessionEnded "Host left the session") ]
  ∧ sessions (Server.leave_session shared "h" (Some "AAAAAA")).1 !! "AAAAAA" = None.
Proof. by vm_compute. Qed.

(** ** Host-only requests (C2, C7, C10) *)

(** C2, as stated, fails: a caller that is not the host of a session can
    still get [sync-state] broadcast to that session's room.  ["g"] hosts
    ["BBBBBB"] and is a guest of ["AAAAAA"], which ["h"] hosts; its scan
    finds its own session first, so its [provide-state] passes the host
    guard, and [forUser] is not checked: naming the room ["AAAAAA"] reaches
    everyone in it.  Its [playback-control] is broadcast too, in its own
    room. *)
Lemma C2_counterexample :
  sessions crossed !! "AAAAAA" = Some {| hostId := "h" |}
  ∧ "g" ≠ "h"
  ∧ provide_state crossed "g" "AAAAAA" "00:42" =
      (crossed, [ToRoom "AAAAAA" {[ "h"; "g" ]} (SyncState "00:42")])
  ∧ playback_control crossed "g" "pause" =
      (crossed, [ToRoom "BBBBBB" {[ "g" ]} (PlaybackControl "pause")]).
Proof.
  split; [by vm_compute |]. split; [done |]. split; by vm_compute.
Qed.

(** C2 (amended): let [code] be an active session whose recorded host is not
    the caller.  A [transfer-host] naming that session is answered with an error
    to the caller alone and changes nothing.  A [playback-control] from the
    caller never broadcasts to that session's room, and neither it nor a
    [provide-state] changes the state (registry, rooms, names).  When that
    session is the one the caller is in (the one its room scan finds),
    [playback-control] yields only the error to the caller and
    [provide-state] yields nothing at all.  Conversely, whenever one of the
    three requests does broadcast, the caller is the recorded host of the
    session the request is about. *)
Theorem C2_only_host_succeeds st sid code s :
  sessions st !! code = Some s →
  hostId s ≠ sid →
  (∀ newHostId, ∃ msg,
     transfer_host st sid (Some code) newHostId = (st, [Emit sid (Error msg)]))
  ∧ (∀ data,
       (playback_control st sid data).1 = st
       ∧ ∀ rcpt e, ToRoom code rcpt e ∉ (playback_control st sid data).2)
  ∧ (∀ forUser data, (provide_state st sid forUser data).1 = st)
  ∧ (current_session st sid = Some code →
       (∀ data,
          playback_control st sid data =
            (st, [Emit sid (Error "Only host can control playback")]))
       ∧ ∀ forUser data, provide_state st sid forUser data = (st, []))
  ∧ (∀ code' newHostId room rcpt e,
       ToRoom room rcpt e ∈ (transfer_host st sid code' newHostId).2 →
       code' = Some room ∧ sessions st !! room = Some {| hostId := sid |})
  ∧ (∀ data room rcpt e,
       ToRoom room rcpt e ∈ (playback_control st sid data).2 →
       current_session st sid = Some room
       ∧ sessions st !! room = Some {| hostId := sid |})
  ∧ (∀ forUser data,
       (provide_state st sid forUser data).2 ≠ [] →
       ∃ c, current_session st sid = Some c
            ∧ sessions st !! c = Some {| hostId := sid |}).
Proof.
  intros Hs Hne. pose proof (not_host_of _ _ _ _ Hs Hne) as Hnot.
  split; [| split; [| split; [| split; [| split; [| split]]]]].
  - intros newHostId. unfold transfer_host.
    destruct (known_session st (Some code)) as [c|] eqn:Hk; [| by eexists].
    apply known_session_Some in Hk as ([= <-] & _ & _).
    destruct (is_host sid (sessions_get (sessions st) code)) eqn:Hh.
    + by apply is_host_spec in Hh.
    + by eexists.
  - intros data. split; [apply playback_control_fst |].
    intros rcpt e. unfold playback_control.
    destruct (hosted_session st sid (current_session st sid)) as [c|] eqn:Hc;
      simpl; rewrite list_elem_of_singleton; [| done].
    intros [= <- _ _]. by apply hosted_session_Some in Hc as (_ & _ & ?).
  - intros. apply provide_state_fst.
  - intros Hcur.
    assert (hosted_session st sid (current_session st sid) = None) as Hn.
    { apply hosted_session_None. intros c. rewrite Hcur. by intros [= <-] _. }
    unfold playback_control, provide_state. by rewrite Hn.
  - intros code' newHostId room rcpt e. unfold transfer_host.
    destruct (known_session st code') as [c|] eqn:Hk; simpl;
      [| by rewrite list_elem_of_singleton].
    apply known_session_Some in Hk as (-> & _ & _).
    destruct (is_host sid (sessions_get (sessions st) c)) eqn:Hh; simpl;
      rewrite list_elem_of_singleton; [| done].
    intros [= -> _ _]. by apply is_host_spec in Hh.
  - intros data room rcpt e. unfold playback_control.
    destruct (hosted_session st sid (current_session st sid)) as [c|] eqn:Hc;
      simpl; rewrite list_elem_of_singleton; [| done].
    intros [= -> _ _]. by apply hosted_session_Some in Hc as (? & _ & ?).
  - intros forUser data. unfold provide_state.
    destruct (hosted_session st sid (current_session st sid)) as [c|] eqn:Hc;
      [| done].
    intros _. exists c. by apply hosted_session_Some in Hc as (? & _ & ?).
Qed.

(** In [shared], the guest ["g"] is in the session that ["h"] hosts. *)
Lemma C2_only_host_succeeds_witness :
  playback_control shared "g" "pause" =
    (shared, [Emit "g" (Error "Only host can control playback")])
  ∧ provide_state shared "g" "h" "position" = (shared, [])
  ∧ ∃ msg, transfer_host shared "g" (Some "AAAAAA") "g" =
             (shared, [Emit "g" (Error msg)]).
Proof.
  destruct (C2_only_host_succeeds shared "g" "AAAAAA" {| hostId := "h" |})
    as (Htransfer & _ & _ & Hmember & _).
  - by vm_compute.
  - by vm_compute.
  - destruct Hmember as [Hplay Hprovide]; [by vm_compute |].
    split; [apply Hplay |]. split; [apply Hprovide | apply Htransfer].
Defined.

(** C7: a caller that is not the host of the session its room scan finds,
    or for which the scan finds none, gets no reaction at all to
    [sync-state] (no emission, no error, state unchanged), while its
    [playback-control] is answered with an error to the caller. *)
Theorem C7_sync_state_silent st sid data :
  (∀ c s, current_session st sid = Some c → sessions st !! c = Some s →
          hostId s ≠ sid) →
  sync_state st sid data = (st, [])
  ∧ playback_control st sid data =
      (st, [Emit sid (Error "Only host can control playback")]).
Proof.
  intros Hnot%scan_not_hosted. unfold sync_state, playback_control.
  by rewrite Hnot.
Qed.

Lemma C7_sync_state_silent_witness :
  sync_state shared "g" "position" = (shared, [])
  ∧ playback_control shared "g" "position" =
      (shared, [Emit "g" (Error "Only host can control playback")]).
Proof.
  apply (C7_sync_state_silent shared "g" "position").
  intros c s Hc Hs. assert (c = "AAAAAA") as -> by (vm_compute in Hc; congruence).
  vm_compute in Hs. by simplify_eq.
Defined.

(** C10: a caller that is in no active session gets, for
    [playback-control], the error ["Only host can control playback"] to
    itself alone, with nothing broadcast and the state unchanged; the
    emission is the one a member that is not the host gets. *)
Theorem C10_outsider_gets_not_host st sid data :
  memberships st sid = [] →
  playback_control st sid data =
    (st, [Emit sid (Error "Only host can control playback")])
  ∧ ∀ st' c s,
      current_session st' sid = Some c → sessions st' !! c = Some s →
      hostId s ≠ sid →
      (playback_control st' sid data).2 = (playback_control st sid data).2.
Proof.
  intros Hm.
  assert (hosted_session st sid (current_session st sid) = None) as Hn.
  { apply hosted_session_None. intros c Hc _ Hs.
    apply current_session_Some in Hc as (Hin & Hne & _).
    assert (c ∈ memberships st sid) as Hmem.
    { apply list_elem_of_filter. by rewrite Hs. }
    rewrite Hm in Hmem. by apply elem_of_nil in Hmem. }
  assert (playback_control st sid data =
            (st, [Emit sid (Error "Only host can control playback")])) as Hp.
  { unfold playback_control. by rewrite Hn. }
  split; [done |]. intros st' c s Hc Hs Hne. rewrite Hp.
  unfold playback_control. rewrite scan_not_hosted; [done |].
  intros c' s' Hc' Hs'. rewrite Hc in Hc'. simplify_eq. congruence.
Qed.

Lemma C10_outsider_gets_not_host_witness :
  playback_control lobby "g" "play" =
    (lobby, [Emit "g" (Error "Only host can control playback")]).
Proof.
  apply (C10_outsider_gets_not_host lobby "g" "play"). by vm_compute.
Defined.

(** ** Joining (C3) *)

(** A code that is missing, empty, or neither a key of the registry nor a
    property name of [Object.prototype] is refused: the acknowledgement, when
    the client passed one, is [false]; the caller gets the error; nothing
    else happens. *)
Lemma join_session_refused st sid code name callback :
  (code = None ∨ code = Some ""
   ∨ ∃ c, code = Some c ∧ sessions st !! c = None ∧ c ∉ object_prototype_keys) →
  Server.join_session st sid code name callback =
    (st, (if callback then [Ack false] else [])
           ++ [Emit sid (Error "Invalid session code")])
  ∧ Legacy.join_session st sid code name callback =
      Server.join_session st sid code name callback.
Proof.
  intros Hcode.
  assert (known_session st code = None) as Hk.
  { destruct (known_session st code) as [c|] eqn:E; [| done].
    apply known_session_Some in E as (-> & Hne & Ht).
    destruct Hcode as [? | [[= ->] | (c' & [= <-] & Hc & Hp)]]; [done.. |].
    unfold sessions_get in Ht. rewrite Hc in Ht.
    by rewrite bool_decide_eq_false_2 in Ht. }
  unfold Server.join_session, Legacy.join_session. by rewrite Hk.
Qed.

(** C3 at a failing input: no session exists, and the guest asks to join
    the code ["constructor"].  [sessions["constructor"]] is the inherited
    [Object] function, so the guard lets the request through: the guest is
    put in a room of that name, [user-joined] is broadcast to it, and the
    acknowledgement is [true].  Both revisions. *)
Example C3_join_inherited_property :
  sessions lobby = ∅
  ∧ (Server.join_session lobby "g" (Some "constructor") (Some "Sam") true).2 =
      [ ToRoom "constructor" {[ "g" ]} (UserJoined "g" (Some "Sam") false);
        Emit "g" (SessionJoined "constructor" false "Sam");
        Ack true;
        ToOthers None ∅ (RequestState "g") ]
  ∧ rooms_of (Server.join_session lobby "g" (Some "constructor") (Some "Sam") true).1 "g"
      = ["g"; "constructor"]
  ∧ (Legacy.join_session lobby "g" (Some "constructor") (Some "Sam") true).2 =
      (Server.join_session lobby "g" (Some "constructor") (Some "Sam") true).2.
Proof. by vm_compute. Qed.

(** ** Host transfer (C4) *)

(** C4, as stated, fails when the host names itself as the new host: the
    transfer succeeds and the caller's next [playback-control] is broadcast,
    not refused.  It also fails when the new host has not joined the room:
    ["g"] is connected but not in the session, the transfer to ["g"]
    succeeds, and the [playback-control] of ["g"] is refused. *)
Lemma C4_counterexample :
  (transfer_host hosted "h" (Some "AAAAAA") "h" =
     (hosted, [ToRoom "AAAAAA" {[ "h" ]} (HostTransferred "h")])
   ∧ playback_control hosted "h" "pause" =
       (hosted, [ToRoom "AAAAAA" {[ "h" ]} (PlaybackControl "pause")])
   ∧ playback_control hosted "h" "pause" ≠
       (hosted, [Emit "h" (Error "Only host can control playback")]))
  ∧ ((transfer_host hosted "h" (Some "AAAAAA") "g").2 =
       [ToRoom "AAAAAA" {[ "h" ]} (HostTransferred "g")]
     ∧ (playback_control (transfer_host hosted "h" (Some "AAAAAA") "g").1
          "g" "pause").2 =
         [Emit "g" (Error "Only host can control playback")]).
Proof.
  assert (playback_control hosted "h" "pause" =
            (hosted, [ToRoom "AAAAAA" {[ "h" ]} (PlaybackControl "pause")])) as Hp
    by by vm_compute.
  split; [| by vm_compute].
  split; [by vm_compute |]. split; [done |]. by rewrite Hp.
Qed.

(** C4 (amended): let [h] host the active session [code] and let
    [newHostId] differ from [h].  The transfer succeeds with a
    [host-transferred] broadcast.  Afterwards a [playback-control] from [h]
    is answered with the error to [h] alone, provided [h] is in no other
    session that its room scan finds first; and a [playback-control] from
    the connection [newHostId] is broadcast to the whole room, provided the
    room scan of that connection finds [code]. *)
Theorem C4_transfer_then_control st h code newHostId data :
  valid_registry (sessions st) →
  sessions st !! code = Some {| hostId := h |} →
  newHostId ≠ h →
  let st' := with_sessions st (insert code {| hostId := newHostId |}) in
  transfer_host st h (Some code) newHostId =
    (st', [ToRoom code (members st code) (HostTransferred newHostId)])
  ∧ ((∀ c, current_session st h = Some c → c = code) →
       playback_control st' h data =
         (st', [Emit h (Error "Only host can control playback")]))
  ∧ (current_session st newHostId = Some code →
       playback_control st' newHostId data =
         (st', [ToRoom code (members st' code) (PlaybackControl data)])).
Proof.
  intros Hv Hs Hne st'.
  pose proof (valid_registry_truthy _ _ _ Hv Hs) as Ht%truthy_str_true.
  assert (sessions st' !! code = Some {| hostId := newHostId |}) as Hs'
    by apply lookup_insert_eq.
  split; [by apply transfer_host_by_host |]. split.
  - intros Hcur. unfold playback_control. rewrite scan_not_hosted; [done |].
    intros c s. unfold st'. rewrite current_session_transfer by eauto.
    intros ->%Hcur. fold st'. rewrite Hs'. intros [= <-]. done.
  - intros Hcur. unfold playback_control.
    assert (hosted_session st' newHostId (current_session st' newHostId)
            = Some code) as ->; [| done].
    apply hosted_session_Some. unfold st' at 1.
    rewrite current_session_transfer by eauto. done.
Qed.

Lemma C4_transfer_then_control_witness :
  playback_control
    (with_sessions shared (insert "AAAAAA" {| hostId := "g" |})) "h" "pause" =
    (with_sessions shared (insert "AAAAAA" {| hostId := "g" |}),
     [Emit "h" (Error "Only host can control playback")])
  ∧ playback_control
      (with_sessions shared (insert "AAAAAA" {| hostId := "g" |})) "g" "pause" =
      (with_sessions shared (insert "AAAAAA" {| hostId := "g" |}),
       [ToRoom "AAAAAA"
          (members (with_sessions shared (insert "AAAAAA" {| hostId := "g" |}))
             "AAAAAA")
          (PlaybackControl "pause")]).
Proof.
  destruct (C4_transfer_then_control shared "h" "AAAAAA" "g" "pause")
    as (_ & Hold & Hnew).
  - exact valid_registry_shared.
  - by vm_compute.
  - done.
  - split.
    + apply Hold. intros c Hc. vm_compute in Hc. congruence.
    + apply Hnew. by vm_compute.
Defined.

(** ** Leaving and chat: what the events carry (C5, C6) *)

(** C5, as stated, fails in the first revision: a guest named ["Sam"] leaves
    and the room gets [user-left] with the user id and no name. *)
Lemma C5_counterexample :
  (Legacy.leave_session
     (Legacy.join_session hosted "g" (Some "AAAAAA") (Some "Sam") true).1
     "g" (Some "AAAAAA")).2
  = [ToRoom "AAAAAA" {[ "h" ]} (UserLeft "g" None)].
Proof. by vm_compute. Qed.

(** C5 (amended): in the later revision the [user-left] event of
    [leave-session] and of [disconnect] carries the leaver's id and a name,
    which is the display name recorded for the leaver, or ["Guest"] when
    none is recorded; in the first revision, which records no names, it
    carries the id alone. *)
Theorem C5_user_left_payload st sid :
  ∃ n,
    (∀ r, name_of st sid = Some r → r ≠ "" → n = r)
    ∧ (name_of st sid = None ∨ name_of st sid = Some "" → n = "Guest")
    ∧ (∀ code c,
         known_session st code = Some c →
         announces_leave (Server.leave_session st sid code).2
           c (members st c ∖ {[sid]}) sid (Some n)
         ∧ announces_leave (Legacy.leave_session st sid code).2
             c (members st c ∖ {[sid]}) sid None)
    ∧ (∀ c,
         current_session st sid = Some c → c ≠ "" →
         announces_leave (Server.disconnect st sid).2 c (members st c) sid (Some n)
         ∧ announces_leave (Legacy.disconnect st sid).2 c (members st c) sid None).
Proof.
  exists (Server.leaver_name (name_of st sid)).
  split; [| split; [| split]].
  - intros r -> Hr. by apply leaver_name_recorded.
  - by intros [-> | ->].
  - intros code c Hk. unfold Server.leave_session, Legacy.leave_session.
    rewrite Hk, name_of_socket_leave, <- members_socket_leave.
    split; apply depart_announces.
  - intros c Hc Hne%truthy_str_true.
    unfold Server.disconnect, Legacy.disconnect. rewrite Hc, Hne.
    split; apply depart_announces.
Qed.

Lemma C5_user_left_payload_witness :
  announces_leave (Server.leave_session shared "g" (Some "AAAAAA")).2
    "AAAAAA" (members shared "AAAAAA" ∖ {[ "g" ]}) "g" (Some "Sam").
Proof.
  destruct (C5_user_left_payload shared "g") as (n & Hrec & _ & Hleave & _).
  rewrite <- (Hrec "Sam"); [| by vm_compute | done].
  apply (Hleave (Some "AAAAAA")). by vm_compute.
Defined.

(** C6, as stated, fails in the later revision when the supplied [user]
    field starts or ends with white space: the host, who has created the
    session and so has no recorded name, sends [user = " Bob"], and the room
    gets the trimmed ["Bob"]. *)
Lemma C6_counterexample :
  name_of hosted "h" = None
  ∧ (Server.chat_message hosted "h" (Some " Bob") "hello" "12:00").2
    = [ToRoom "AAAAAA" {[ "h" ]} (ChatMessage "Bob" "hello" "12:00")]
  ∧ "Bob" ≠ " Bob".
Proof. by vm_compute. Qed.

(** C6 (amended): the [chat-message] of a caller whose room scan finds
    session [c] is broadcast to that room.  In the later revision its [user]
    field is the caller's recorded display name when there is one;
    otherwise the supplied [user] field with leading and trailing white
    space removed, when that is not empty; otherwise ["Guest"].  In the first
    revision, which records no names, it is the supplied field as sent when
    it is not blank, and ["Guest"] otherwise. *)
Theorem C6_chat_display_name st sid c user message time :
  current_session st sid = Some c → c ≠ "" →
  (∃ n,
     Server.chat_message st sid user message time =
       (st, [ToRoom c (members st c) (ChatMessage n message time)])
     ∧ (∀ r, name_of st sid = Some r → r ≠ "" → n = r)
     ∧ (name_of st sid = None ∨ name_of st sid = Some "" →
          (∀ u, user = Some u → trim u ≠ "" → n = trim u)
          ∧ (user = None ∨ (∃ u, user = Some u ∧ trim u = "") → n = "Guest")))
  ∧ (∃ n,
       Legacy.chat_message st sid user message time =
         (st, [ToRoom c (members st c) (ChatMessage n message time)])
       ∧ (∀ u, user = Some u → trim u ≠ "" → n = u)
       ∧ (user = None ∨ (∃ u, user = Some u ∧ trim u = "") → n = "Guest")).
Proof.
  intros Hc Hne%truthy_str_true.
  assert (∀ u, trim u ≠ "" → truthy_str u && truthy_str (trim u) = true) as Hnb.
  { intros u Hu. rewrite (proj2 (truthy_str_true (trim u)) Hu).
    destruct u; [done | by simpl]. }
  assert (∀ u, trim u = "" → truthy_str u && truthy_str (trim u) = false) as Hb.
  { intros u ->. by rewrite andb_false_r. }
  assert (∀ u, user = Some u → trim u ≠ "" →
               Server.chat_name None user = trim u) as Hs1.
  { intros u -> Hu. simpl. by rewrite Hnb. }
  assert (user = None ∨ (∃ u, user = Some u ∧ trim u = "") →
          Server.chat_name None user = "Guest") as Hs2.
  { intros [-> | (u & -> & Hu)]; [done |]. simpl. by rewrite Hb. }
  split.
  - exists (Server.chat_name (name_of st sid) user).
    unfold Server.chat_message. rewrite Hc, Hne. split; [done |]. split.
    + intros r -> Hr%truthy_str_true. simpl. by rewrite Hr.
    + intros [-> | ->]; split; auto.
  - exists (name_or_guest user).
    unfold Legacy.chat_message. rewrite Hc, Hne. split; [done |]. split.
    + intros u -> Hu. unfold name_or_guest, non_blank. by rewrite Hnb.
    + intros [-> | (u & -> & Hu)]; [done |].
      unfold name_or_guest, non_blank. by rewrite Hb.
Qed.

Lemma C6_chat_display_name_witness :
  ∃ n,
    Server.chat_message shared "g" (Some "Bob") "hello" "12:00" =
      (shared, [ToRoom "AAAAAA" (members shared "AAAAAA")
                  (ChatMessage n "hello" "12:00")])
    ∧ n = "Sam".
Proof.
  destruct (C6_chat_display_name shared "g" "AAAAAA" (Some "Bob") "hello" "12:00")
    as [(n & Hout & Hrec & _) _].
  - by vm_compute.
  - done.
  - exists n. split; [done |]. by apply Hrec; [vm_compute |].
Defined.

(** ** Creating sessions (C8, C9) *)

(** C8: [generateCode()] returns a code of six characters of [chars] that
    is not a key of the registry; it fails to return within [fuel] attempts
    only when every one of them hit a key.  [create-session] adds the new
    code to the registry and keeps every session there was, so the codes
    issued by a sequence of [create-session] requests are pairwise distinct
    and distinct from the codes active before.  A code whose session has
    ended can be issued again. *)
Theorem C8_generated_codes_fresh rnd fuel st sid sids :
  match generateCode rnd fuel (sessions st) (draws st) with
  | Some (code, _) =>
      String.length code = 6
      ∧ (∀ a, a ∈ String.list_ascii_of_string code →
              a ∈ String.list_ascii_of_string chars)
      ∧ sessions st !! code = None
  | None =>
      ∀ n, n < fuel →
           is_Some (sessions st !! draw_code rnd 6 (draws st + 6 * n) "")
  end
  ∧ match create_session rnd fuel st sid with
    | Some (st', out) =>
        ∃ code,
          issued out = [code]
          ∧ sessions st !! code = None
          ∧ sessions st' = <[code := {| hostId := sid |}]> (sessions st)
    | None => generateCode rnd fuel (sessions st) (draws st) = None
    end
  ∧ match create_many rnd fuel st sids with
    | Some (st', codes) =>
        NoDup codes
        ∧ length codes = length sids
        ∧ (∀ c, c ∈ codes → sessions st !! c = None)
        ∧ dom (sessions st') = dom (sessions st) ∪ list_to_set codes
    | None => ∃ st1, generateCode rnd fuel (sessions st1) (draws st1) = None
    end
  ∧ ∃ st1 out1 st2 out2 st3 out3,
      create_session rnd_zero 1 lobby "h" = Some (st1, out1)
      ∧ issued out1 = ["AAAAAA"]
      ∧ Server.leave_session st1 "h" (Some "AAAAAA") = (st2, out2)
      ∧ sessions st2 !! "AAAAAA" = None
      ∧ create_session rnd_zero 1 st2 "g" = Some (st3, out3)
      ∧ issued out3 = ["AAAAAA"]
      ∧ sessions st3 !! "AAAAAA" = Some {| hostId := "g" |}.
Proof.
  split; [| split; [| split]].
  - pose proof (generateCode_spec rnd fuel (sessions st) (draws st)) as Hg.
    destruct (generateCode rnd fuel (sessions st) (draws st)) as [[code k]|];
      [| done].
    destruct Hg as ([Hlen Hall]%is_code_spec & Hfree & _). done.
  - pose proof (create_session_spec rnd fuel st sid) as Hsp.
    destruct (create_session rnd fuel st sid) as [[st' out]|]; [| done].
    destruct Hsp as (code & -> & _ & Hfree & Hst' & _). by exists code.
  - apply create_many_spec.
  - destruct (create_session rnd_zero 1 lobby "h") as [[st1 out1]|] eqn:E1;
      [| by vm_compute in E1].
    destruct (Server.leave_session st1 "h" (Some "AAAAAA")) as [st2 out2] eqn:E2.
    destruct (create_session rnd_zero 1 st2 "g") as [[st3 out3]|] eqn:E3.
    + exists st1, out1, st2, out2, st3, out3.
      vm_compute in E1. injection E1 as <- <-.
      vm_compute in E2. injection E2 as <- <-.
      vm_compute in E3. injection E3 as <- <-.
      by vm_compute.
    + vm_compute in E1. injection E1 as <- <-.
      vm_compute in E2. injection E2 as <- <-.
      by vm_compute in E3.
Qed.

(** C9, as stated, fails: nothing stops a connection that is in a session
    from creating another one, and it is then in both. *)
Lemma C9_counterexample :
  memberships hosted "h" = ["AAAAAA"]
  ∧ create_session rnd_blocks 1 hosted "h" =
      Some (two_sessions,
            [ Emit "h" (SessionCreated "BBBBBB");
              Emit "h" (UserJoined "h" None true) ])
  ∧ memberships two_sessions "h" = ["AAAAAA"; "BBBBBB"].
Proof. by vm_compute. Qed.

(** C9 (amended): [create-session] and [join-session] do not keep a caller
    in one session only.  Neither takes the caller out of a session it is
    in.  A connected caller becomes a member of the created session, which it
    was not in before, or of the joined session when that is an active one
    (the code being other than its own id), and of no further session.  So
    a caller that was in no active session is afterwards in that one alone,
    and a caller that was in a session and creates another, or joins a
    different active one, is afterwards in both.  Both revisions of
    [join-session]; a refused join changes nothing. *)
Theorem C9_membership_growth rnd fuel st sid code name callback :
  match create_session rnd fuel st sid with
  | Some (st', out) =>
      ∃ c, issued out = [c]
           ∧ (c ∉ memberships st sid)
           ∧ (is_Some (sockets st !! sid) → c ≠ sid → c ∈ memberships st' sid)
           ∧ memberships st sid ⊆ memberships st' sid
           ∧ ∀ r, r ∈ memberships st' sid → r ∈ memberships st sid ∨ r = c
  | None => generateCode rnd fuel (sessions st) (draws st) = None
  end
  ∧ match known_session st code with
    | Some c =>
        let st1 := (Server.join_session st sid code name callback).1 in
        let st2 := (Legacy.join_session st sid code name callback).1 in
        (is_Some (sockets st !! sid) → is_Some (sessions st !! c) → c ≠ sid →
           c ∈ memberships st1 sid ∧ c ∈ memberships st2 sid)
        ∧ memberships st sid ⊆ memberships st1 sid
        ∧ (∀ r, r ∈ memberships st1 sid → r ∈ memberships st sid ∨ r = c)
        ∧ memberships st sid ⊆ memberships st2 sid
        ∧ (∀ r, r ∈ memberships st2 sid → r ∈ memberships st sid ∨ r = c)
    | None =>
        (Server.join_session st sid code name callback).1 = st
        ∧ (Legacy.join_session st sid code name callback).1 = st
    end.
Proof.
  split.
  - pose proof (create_session_spec rnd fuel st sid) as Hsp.
    destruct (create_session rnd fuel st sid) as [[st' out]|]; [| done].
    destruct Hsp as (c & -> & _ & Hfree & Hst' & Hsk). exists c.
    split; [done |].
    assert (rooms_of st' sid = rooms_of (socket_join st sid c) sid) as Hr.
    { unfold rooms_of. by rewrite Hsk. }
    split.
    { intros (_ & _ & Hs)%elem_of_memberships. rewrite Hfree in Hs.
      by destruct Hs. }
    split.
    { intros Hcon Hne. apply elem_of_memberships. rewrite Hr.
      split; [by apply rooms_of_join_has |]. split; [done |].
      rewrite Hst', lookup_insert_eq. eauto. }
    apply memberships_grow.
    + intros r. rewrite Hr. apply rooms_of_join_keeps.
    + intros r. rewrite Hr. apply rooms_of_join_adds.
    + intros r [s Hs]. rewrite Hst'. destruct (decide (c = r)) as [-> | Hne].
      * rewrite lookup_insert_eq. eauto.
      * rewrite lookup_insert_ne by done. eauto.
    + intros r. rewrite Hst'. destruct (decide (c = r)) as [-> | Hne]; [by right |].
      rewrite lookup_insert_ne by done. by left.
  - unfold Server.join_session, Legacy.join_session.
    destruct (known_session st code) as [c|]; [| done]. simpl.
    rewrite memberships_set_displayName.
    destruct (join_memberships st sid c) as [Hsub Hsup].
    split; [| done]. intros Hcon Hs Hne.
    assert (c ∈ memberships (socket_join st sid c) sid) as Hin; [| done].
    apply elem_of_memberships. split; [by apply rooms_of_join_has |]. done.
Qed.

(** In [hosted], ["h"] is in its session ["AAAAAA"]; after it creates
    ["BBBBBB"] it is in both. *)
Lemma C9_membership_growth_witness :
  "AAAAAA" ∈ memberships two_sessions "h"
  ∧ "BBBBBB" ∈ memberships two_sessions "h".
Proof.
  pose proof (C9_membership_growth rnd_blocks 1 hosted "h" None None false)
    as [Hcreate _].
  assert (create_session rnd_blocks 1 hosted "h" =
            Some (two_sessions,
                  [ Emit "h" (SessionCreated "BBBBBB");
                    Emit "h" (UserJoined "h" None true) ])) as Hrun
    by by vm_compute.
  rewrite Hrun in Hcreate.
  destruct Hcreate as (c & Hissued & _ & Hnew & Hkept & _).
  injection Hissued as <-. split.
  - apply Hkept. vm_compute. apply list_elem_of_here.
  - apply Hnew; [vm_compute; by eexists | done].
Defined.

(** * Further properties of the code *)

(** ** Allowed origins *)

Lemma list_ascii_app (a b : string) :
  String.list_ascii_of_string (a +:+ b) =
  String.list_ascii_of_string a ++ String.list_ascii_of_string b.
Proof. induction a as [|c a IH]; simpl; [done | by rewrite IH]. Qed.

Lemma string_app_empty_r (a : string) : a +:+ "" = a.
Proof.
  induction a as [|c a IH]; [done |].
  change (String c a +:+ "") with (String c (a +:+ "")). by rewrite IH.
Qed.

Lemma strip_prefix_Some p s r : strip_prefix p s = Some r → s = p +:+ r.
Proof.
  revert s. induction p as [|a p IH]; intros s; simpl.
  - by intros [= ->].
  - destruct s as [|b s]; [done |].
    destruct (Ascii.eqb a b) eqn:E; [| done].
    apply Ascii.eqb_eq in E as ->. intros ->%IH. done.
Qed.

Lemma origin_char_plain c : is_origin_char c = true → plain_char c = true.
Proof. destruct c as [[] [] [] [] [] [] [] []]; by vm_compute. Qed.

Lemma forallb_impl {A} (f g : A → bool) l :
  (∀ x, f x = true → g x = true) → forallb f l = true → forallb g l = true.
Proof.
  intros Hfg. induction l as [|x l IH]; simpl; [done |].
  intros [Hx Hl]%andb_true_iff. by rewrite (Hfg x Hx), IH.
Qed.

(** What the pattern accepts: [http://] or [https://] followed by a
    non-empty run of class characters. *)
Lemma origin_pattern_shape s :
  origin_pattern s = true →
  ∃ scheme host,
    (scheme = "http://" ∨ scheme = "https://")
    ∧ s = scheme +:+ host ∧ host ≠ ""
    ∧ forallb is_origin_char (String.list_ascii_of_string host) = true.
Proof.
  unfold origin_pattern.
  destruct (strip_prefix "http" s) as [r|] eqn:Hr; [| done].
  apply strip_prefix_Some in Hr as ->.
  set (r' := match r with String "s" t => t | _ => r end).
  destruct (strip_prefix "://" r') as [host|] eqn:Hh; [| done].
  apply strip_prefix_Some in Hh.
  intros [Hne%truthy_str_true Hall]%andb_true_iff.
  assert (r = r' ∨ r = String "s" r') as [Hr | Hr].
  { unfold r'. destruct r as [|c r0]; [by left |].
    destruct (decide (c = "s"%char)) as [-> | Hc]; [by right |].
    left. destruct c as [[] [] [] [] [] [] [] []]; done. }
  - exists "http://", host. rewrite Hr, Hh. auto.
  - exists "https://", host. rewrite Hr, Hh. auto.
Qed.

Lemma origin_pattern_plain s :
  origin_pattern s = true →
  s ≠ "" ∧ forallb plain_char (String.list_ascii_of_string s) = true.
Proof.
  intros (scheme & host & Hscheme & -> & _ & Hall)%origin_pattern_shape.
  apply (forallb_impl _ plain_char) in Hall; [| apply origin_char_plain].
  rewrite list_ascii_app, forallb_app, Hall.
  by destruct Hscheme as [-> | ->].
Qed.

Lemma trim_start_plain s :
  forallb plain_char (String.list_ascii_of_string s) = true → trim_start s = s.
Proof.
  destruct s as [|c s]; simpl; [done |].
  intros [Hc _]%andb_true_iff. unfold plain_char in Hc.
  apply andb_true_iff in Hc as [Hc%negb_true_iff _]. by rewrite Hc.
Qed.

Lemma rev_app_rev_app s t u :
  String.rev_app (String.rev_app s t) u = String.rev_app t (s +:+ u).
Proof.
  revert t u. induction s as [|a s IH]; intros t u; simpl; [done |].
  by rewrite IH.
Qed.

Lemma string_rev_involutive s : String.rev (String.rev s) = s.
Proof.
  unfold String.rev. rewrite rev_app_rev_app. simpl. apply string_app_empty_r.
Qed.

Lemma rev_app_plain s t :
  forallb plain_char (String.list_ascii_of_string s) = true →
  forallb plain_char (String.list_ascii_of_string t) = true →
  forallb plain_char (String.list_ascii_of_string (String.rev_app s t)) = true.
Proof.
  revert t. induction s as [|a s IH]; intros t; simpl; [done |].
  intros [Ha Hs]%andb_true_iff Ht. apply IH; [done |]. simpl. by rewrite Ha.
Qed.

(** [trim] leaves alone a string without white space. *)
Lemma trim_plain s :
  forallb plain_char (String.list_ascii_of_string s) = true → trim s = s.
Proof.
  intros Hs. unfold trim, trim_end. rewrite (trim_start_plain s Hs).
  rewrite trim_start_plain; [apply string_rev_involutive |].
  by apply rev_app_plain.
Qed.

Lemma split_comma_cons s : ∃ piece pieces, split_comma s = piece :: pieces.
Proof.
  induction s as [|c s (piece & pieces & IH)]; simpl; [by eexists _, _ |].
  destruct (Ascii.eqb c ","); [by eexists _, _ |]. rewrite IH. by eexists _, _.
Qed.

(** Splitting what starts with a comma-free piece [x]. *)
Lemma split_comma_app x rest :
  forallb plain_char (String.list_ascii_of_string x) = true →
  split_comma (x +:+ rest) =
    match split_comma rest with
    | piece :: pieces => (x +:+ piece) :: pieces
    | [] => [x]
    end.
Proof.
  destruct (split_comma_cons rest) as (piece & pieces & Hrest).
  induction x as [|c x IH]; simpl.
  - intros _. by rewrite Hrest.
  - intros [Hc Hx]%andb_true_iff. unfold plain_char in Hc.
    apply andb_true_iff in Hc as [_ Hc%negb_true_iff]. rewrite Hc, (IH Hx).
    by rewrite Hrest.
Qed.

Lemma split_comma_concat o os :
  Forall (λ x, forallb plain_char (String.list_ascii_of_string x) = true) (o :: os) →
  split_comma (String.concat "," (o :: os)) = o :: os.
Proof.
  revert o. induction os as [|o' os IH]; intros o Hall.
  - apply Forall_cons in Hall as [Ho _]. simpl.
    rewrite <- (string_app_empty_r o) at 1.
    rewrite split_comma_app by done. simpl. by rewrite string_app_empty_r.
  - apply Forall_cons in Hall as [Ho Hall].
    change (String.concat "," (o :: o' :: os))
      with (o +:+ String "," (String.concat "," (o' :: os))).
    rewrite split_comma_app by done.
    change (split_comma (String "," (String.concat "," (o' :: os))))
      with ("" :: split_comma (String.concat "," (o' :: os))).
    rewrite IH by done. cbv beta iota. by rewrite string_app_empty_r.
Qed.

Lemma origin_filter_false x :
  truthy_str x && origin_pattern x = false → origin_pattern x = false.
Proof.
  destruct (truthy_str x) eqn:Hx; [done |]. intros _.
  destruct x; [done | discriminate].
Qed.

(** The parsed setting is never an empty list.  It is ['*'] exactly when no
    comma-separated piece, once trimmed, matches the pattern (in particular
    when the variable is unset or empty); otherwise every origin in the list
    is a trimmed piece of the variable that matches the pattern, and
    trimming it again changes nothing. *)
Theorem parse_cors_origin_result env :
  match parse_cors_origin env with
  | AnyOrigin =>
      ∀ v piece, env = Some v → piece ∈ split_comma v →
                 origin_pattern (trim piece) = false
  | Origins l =>
      l ≠ []
      ∧ ∀ o, o ∈ l →
             origin_pattern o = true ∧ trim o = o
             ∧ ∃ v piece, env = Some v ∧ piece ∈ split_comma v ∧ o = trim piece
  end.
Proof.
  unfold parse_cors_origin. destruct env as [v|]; [| done].
  destruct (truthy_str v) eqn:Hv.
  - set (keep := λ origin, truthy_str origin && origin_pattern origin).
    destruct (List.filter keep (map trim (split_comma v))) as [|o l] eqn:Hf; simpl.
    + intros v' piece [= <-] Hin. apply origin_filter_false.
      destruct (keep (trim piece)) eqn:Hk; [| done].
      assert (In (trim piece) (List.filter keep (map trim (split_comma v)))) as Hin'.
      { apply filter_In. split; [| done]. apply in_map. by apply list_elem_of_In. }
      by rewrite Hf in Hin'.
    + split; [done |]. intros x Hx%list_elem_of_In. rewrite <- Hf in Hx.
      apply filter_In in Hx as [Hx Hk]. unfold keep in Hk.
      apply andb_true_iff in Hk as [_ Hk].
      split; [done |]. split.
      * apply trim_plain. by apply origin_pattern_plain.
      * apply in_map_iff in Hx as (piece & <- & Hpiece).
        exists v, piece. split; [done |]. split; [| done].
        by apply list_elem_of_In.
  - intros v' piece [= <-]. unfold truthy_str in Hv.
    apply negb_false_iff, String.eqb_eq in Hv as ->. simpl.
    by intros ->%list_elem_of_singleton.
Qed.

(** A comma-separated list of origins that match the pattern is read back
    as that list, in order. *)
Theorem parse_cors_origin_roundtrip o os :
  Forall (λ x, origin_pattern x = true) (o :: os) →
  parse_cors_origin (Some (String.concat "," (o :: os))) = Origins (o :: os).
Proof.
  intros Hall.
  assert (Forall (λ x, forallb plain_char (String.list_ascii_of_string x) = true)
            (o :: os)) as Hplain.
  { eapply Forall_impl; [exact Hall |]. intros x Hx. by apply origin_pattern_plain. }
  pose proof (split_comma_concat o os Hplain) as Hsplit.
  unfold parse_cors_origin.
  assert (truthy_str (String.concat "," (o :: os)) = true) as ->.
  { apply truthy_str_true. intros Hempty. rewrite Hempty in Hsplit.
    injection Hsplit as <- _. apply Forall_cons in Hall as [Ho _]. done. }
  rewrite Hsplit.
  assert (∀ l, Forall (λ x, origin_pattern x = true) l →
               List.filter (λ origin, truthy_str origin && origin_pattern origin)
                 (map trim l) = l) as Hkeep.
  { induction l as [|x l IH]; [done |]. intros [Hx Hl]%Forall_cons.
    cbn [map List.filter].
    rewrite (trim_plain x) by by apply origin_pattern_plain.
    rewrite Hx, andb_true_r.
    destruct (origin_pattern_plain x Hx) as [Hne%truthy_str_true _].
    by rewrite Hne, (IH Hl). }
  by rewrite (Hkeep _ Hall).
Qed.

Lemma parse_cors_origin_roundtrip_witness :
  parse_cors_origin (Some "http://localhost:3000,https://vibe-app.example.com")
  = Origins ["http://localhost:3000"; "https://vibe-app.example.com"].
Proof.
  apply (parse_cors_origin_roundtrip "http://localhost:3000"
           ["https://vibe-app.example.com"]).
  repeat constructor.
Defined.

(** ** The generator retries on collisions only *)

Lemma generateCode_more_fuel rnd fuel extra (m : gmap string session) k r :
  generateCode rnd fuel m k = Some r →
  generateCode rnd (fuel + extra) m k = Some r.
Proof.
  revert k. induction fuel as [|fuel IH]; intros k; [done |].
  cbn [generateCode Nat.add].
  destruct (truthy (sessions_get m (draw_code rnd 6 k ""))); [apply IH | done].
Qed.

Lemma generateCode_attempts rnd (m : gmap string session) fuel : ∀ k code k',
  generateCode rnd fuel m k = Some (code, k') →
  ∃ n, n < fuel
       ∧ code = draw_code rnd 6 (k + 6 * n) ""
       ∧ k' = k + 6 * S n
       ∧ m !! code = None
       ∧ ∀ j, j < n → is_Some (m !! draw_code rnd 6 (k + 6 * j) "").
Proof.
  induction fuel as [|fuel IH]; intros k code k' Hg; [done |].
  cbn [generateCode] in Hg.
  destruct (truthy (sessions_get m (draw_code rnd 6 k ""))) eqn:E.
  - apply truthy_get_code in E; [| apply draw_code_is_code].
    destruct (IH _ _ _ Hg) as (n & Hn & Hcode & Hk' & Hfree & Hbefore).
    exists (S n). split; [lia |].
    split; [by replace (k + 6 * S n) with (k + 6 + 6 * n) by lia |].
    split; [lia |]. split; [done |].
    intros [|j] Hj; [by replace (k + 6 * 0) with k by lia |].
    replace (k + 6 * S j) with (k + 6 + 6 * j) by lia. apply Hbefore. lia.
  - exists 0. replace (k + 6 * 0) with k by lia.
    injection Hg as Hcode Hk'. split; [lia |]. split; [done |].
    split; [lia |]. split; [| intros j Hj; lia]. rewrite <- Hcode.
    destruct (m !! draw_code rnd 6 k "") eqn:E'; [| done].
    by rewrite (sessions_get_own _ _ _ E') in E.
Qed.

(** [generateCode()] returns the code of its first attempt that is not a
    key: every earlier attempt was one.  Each attempt takes six draws, and
    the result does not depend on how many further attempts were allowed. *)
Theorem generateCode_first_free rnd fuel (m : gmap string session) k :
  match generateCode rnd fuel m k with
  | Some (code, k') =>
      ∃ n, n < fuel
           ∧ code = draw_code rnd 6 (k + 6 * n) ""
           ∧ k' = k + 6 * S n
           ∧ m !! code = None
           ∧ (∀ j, j < n → is_Some (m !! draw_code rnd 6 (k + 6 * j) ""))
           ∧ ∀ fuel', fuel ≤ fuel' → generateCode rnd fuel' m k = Some (code, k')
  | None => ∀ n, n < fuel → is_Some (m !! draw_code rnd 6 (k + 6 * n) "")
  end.
Proof.
  destruct (generateCode rnd fuel m k) as [[code k']|] eqn:Hg.
  - destruct (generateCode_attempts _ _ _ _ _ _ Hg)
      as (n & Hn & Hcode & Hk' & Hfree & Hbefore).
    exists n. repeat (split; [done |]).
    intros fuel' Hle. replace fuel' with (fuel + (fuel' - fuel)) by lia.
    by apply generateCode_more_fuel.
  - pose proof (generateCode_spec rnd fuel m k) as Hsp. by rewrite Hg in Hsp.
Qed.

(** ** Rooms after joining *)

Lemma members_sockets st st' room :
  sockets st' = sockets st → members st' room = members st room.
Proof. unfold members. by intros ->. Qed.

Lemma members_socket_join st sid c :
  is_Some (sockets st !! sid) →
  members (socket_join st sid c) c = members st c ∪ {[sid]}.
Proof.
  intros [sk Hsk]. apply set_eq. intros p.
  rewrite elem_of_union, !elem_of_members, rooms_of_socket_join, elem_of_singleton.
  destruct (decide (p = sid)) as [-> | Hp].
  - destruct (decide (c ∈ rooms_of st sid ∨ sockets st !! sid = None))
      as [[Hin | Hnone] | Hnot].
    + split; auto.
    + congruence.
    + split; [auto |]. intros _. apply elem_of_app. right. by apply list_elem_of_singleton.
  - split; [auto |]. by intros [? | ?].
Qed.

Lemma members_socket_join_minus st sid c room :
  members (socket_join st sid c) room ∖ {[sid]} = members st room ∖ {[sid]}.
Proof.
  apply set_eq. intros p.
  rewrite !elem_of_difference, !elem_of_members, rooms_of_socket_join,
    elem_of_singleton.
  destruct (decide (p = sid)) as [-> | Hp]; [split; by intros [_ ?] | done].
Qed.

Lemma rooms_of_socket_join_other st sid c p :
  p ≠ sid → rooms_of (socket_join st sid c) p = rooms_of st p.
Proof. intros Hp. rewrite rooms_of_socket_join. by rewrite decide_False. Qed.


Lemma find_app_l {A} (f : A → bool) (l l' : list A) x :
  List.find f l = Some x → List.find f (l ++ l') = Some x.
Proof.
  induction l as [|y l IH]; [done |]. simpl. by destruct (f y).
Qed.


Lemma name_of_socket_join st sid c p :
  name_of (socket_join st sid c) p = name_of st p.
Proof.
  unfold name_of, socket_join, with_sockets. simpl.
  destruct (decide (p = sid)) as [-> | Hp]; [| by rewrite lookup_alter_ne].
  rewrite lookup_alter_eq. destruct (sockets st !! sid) as [sk|]; [| done].
  simpl. unfold join_room. by destruct (in_room c sk).
Qed.

Lemma members_set_displayName st sid n room :
  members (set_displayName st sid n) room = members st room.
Proof.
  apply set_eq. intros p. by rewrite !elem_of_members, rooms_of_set_displayName.
Qed.

Lemma string_eqb_bool_decide (a b : string) :
  String.eqb a b = bool_decide (a = b).
Proof.
  destruct (String.eqb_spec a b).
  - by rewrite bool_decide_eq_true_2.
  - by rewrite bool_decide_eq_false_2.
Qed.

Lemma in_room_join_room c sk : in_room c (join_room c sk) = true.
Proof.
  unfold join_room. destruct (in_room c sk) eqn:E; [done |].
  unfold in_room. simpl. apply bool_decide_eq_true_2, elem_of_app. right.
  by apply list_elem_of_singleton.
Qed.

Lemma join_room_idempotent c sk : join_room c (join_room c sk) = join_room c sk.
Proof. unfold join_room at 1. by rewrite in_room_join_room. Qed.

Lemma filter_other_rooms (c : string) (l : list string) :
  c ∉ l → filter (λ r, r ≠ c) l = l.
Proof.
  induction l as [|r l IH]; [done |]. intros Hc.
  apply not_elem_of_cons in Hc as [Hne Hc].
  rewrite filter_cons_True by done. by rewrite IH.
Qed.

Lemma leave_join_room c sk :
  c ∉ rooms sk → leave_room c (join_room c sk) = sk.
Proof.
  intros Hc. unfold join_room, in_room.
  rewrite bool_decide_eq_false_2 by done. unfold leave_room. simpl.
  rewrite filter_app, filter_other_rooms by done.
  rewrite filter_cons_False by (by intros ?). simpl. rewrite app_nil_r.
  by destruct sk.
Qed.

(** ** Creating and joining *)

(** [create-session] by a connected caller: the caller hosts the new
    session and is in its room, together with whoever was still in a room
    of that name; the two events go to the caller alone; no other session,
    no other connection's rooms and no display name changes. *)
Theorem create_session_effect rnd fuel st sid st' out :
  create_session rnd fuel st sid = Some (st', out) →
  is_Some (sockets st !! sid) →
  ∃ code,
    out = [ Emit sid (SessionCreated code); Emit sid (UserJoined sid None true) ]
    ∧ sessions st' !! code = Some {| hostId := sid |}
    ∧ (∀ c, c ≠ code → sessions st' !! c = sessions st !! c)
    ∧ members st' code = members st code ∪ {[sid]}
    ∧ (∀ p, p ≠ sid → rooms_of st' p = rooms_of st p)
    ∧ ∀ p, name_of st' p = name_of st p.
Proof.
  intros Hcr Hsk. pose proof (create_session_spec rnd fuel st sid) as Hsp.
  rewrite Hcr in Hsp. destruct Hsp as (code & -> & _ & _ & Hst' & Hsock).
  exists code. split; [done |]. rewrite Hst'.
  split; [apply lookup_insert_eq |].
  split; [intros c Hc; by rewrite lookup_insert_ne |].
  split; [by rewrite (members_sockets _ _ _ Hsock), members_socket_join |].
  split.
  - intros p Hp. unfold rooms_of at 1. rewrite Hsock.
    by apply rooms_of_socket_join_other.
  - intros p. unfold name_of at 1. rewrite Hsock. apply name_of_socket_join.
Qed.

Lemma create_session_effect_witness :
  ∃ code,
    sessions hosted !! code = Some {| hostId := "h" |}
    ∧ members hosted code = members lobby code ∪ {[ "h" ]}.
Proof.
  destruct (create_session_effect rnd_blocks 1 lobby "h" hosted
              [ Emit "h" (SessionCreated "AAAAAA");
                Emit "h" (UserJoined "h" None true) ])
    as (code & _ & Hhost & _ & Hmem & _).
  - by vm_compute.
  - vm_compute. by eexists.
  - by exists code.
Defined.



(** A successful [join-session] (the code is a key of the registry, the
    caller is connected): the registry is untouched; the caller is added to
    the room and nobody is removed; [user-joined] goes to the room with the
    caller in it, carrying the chosen name and whether the caller is the
    recorded host; [session-joined] goes to the caller; the acknowledgement
    is [true]; [request-state] goes to the host's own room, never to the
    caller.  The first revision emits the same. *)
Theorem join_session_success st sid code c s name callback :
  known_session st code = Some c →
  sessions st !! c = Some s →
  is_Some (sockets st !! sid) →
  let r := Server.join_session st sid code name callback in
  let isHost := bool_decide (sid = hostId s) in
  sessions r.1 = sessions st
  ∧ members r.1 c = members st c ∪ {[sid]}
  ∧ (∀ p, p ≠ sid → rooms_of r.1 p = rooms_of st p)
  ∧ r.2 = [ ToRoom c (members st c ∪ {[sid]})
              (UserJoined sid (Some (name_or_guest name)) isHost);
            Emit sid (SessionJoined c isHost (name_or_guest name)) ]
          ++ (if callback then [Ack true] else [])
          ++ [ ToOthers (Some (hostId s)) (members st (hostId s) ∖ {[sid]})
                 (RequestState sid) ]
  ∧ (Legacy.join_session st sid code name callback).2 = r.2.
Proof.
  intros Hk Hs Hsk r isHost. unfold r, Server.join_session, Legacy.join_session.
  rewrite Hk. cbn [fst snd]. split; [done |].
  rewrite members_set_displayName, members_socket_join by done.
  split; [done |]. split.
  - intros p Hp. by rewrite rooms_of_set_displayName, rooms_of_socket_join_other.
  - unfold join_success. cbn [sessions set_displayName socket_join with_sockets].
    rewrite (sessions_get_own _ _ _ Hs). unfold is_host. cbn [host_of].
    rewrite string_eqb_bool_decide.
    rewrite !members_set_displayName, !members_socket_join_minus.
    by rewrite !members_socket_join by done.
Qed.

Lemma join_session_success_witness :
  members shared "AAAAAA" = members hosted "AAAAAA" ∪ {[ "g" ]}.
Proof.
  apply (join_session_success hosted "g" (Some "AAAAAA") "AAAAAA"
           {| hostId := "h" |} (Some "Sam") true).
  - by vm_compute.
  - by vm_compute.
  - vm_compute. by eexists.
Defined.

Lemma state_eq st st' :
  sessions st = sessions st' → sockets st = sockets st' → draws st = draws st' →
  st = st'.
Proof. destruct st, st'. simpl. by intros -> -> ->. Qed.

Lemma known_session_sessions st st' code :
  sessions st' = sessions st → known_session st' code = known_session st code.
Proof. unfold known_session. by intros ->. Qed.

(** Joining again the session one has just joined, under the same name,
    changes nothing in the state (the events are emitted again). *)
Theorem join_session_idempotent st sid code name callback callback' :
  let st1 := (Server.join_session st sid code name callback).1 in
  let st2 := (Legacy.join_session st sid code name callback).1 in
  (Server.join_session st1 sid code name callback').1 = st1
  ∧ (Legacy.join_session st2 sid code name callback').1 = st2.
Proof.
  intros st1 st2.
  assert (known_session st1 code = known_session st code) as Hk1.
  { apply known_session_sessions. unfold st1, Server.join_session.
    by destruct (known_session st code). }
  assert (known_session st2 code = known_session st code) as Hk2.
  { apply known_session_sessions. unfold st2, Legacy.join_session.
    by destruct (known_session st code). }
  unfold Server.join_session at 1. unfold Legacy.join_session at 1.
  rewrite Hk1, Hk2. unfold st1, st2, Server.join_session, Legacy.join_session.
  destruct (known_session st code) as [c|]; [| done]. cbn [fst].
  split; apply state_eq; try done; cbn; apply map_eq; intros p;
    (destruct (decide (p = sid)) as [-> | Hp];
     [| by rewrite !lookup_alter_ne by done]);
    rewrite !lookup_alter_eq; destruct (sockets st !! sid) as [sk|]; try done;
    simpl; f_equal.
  - change {| rooms := rooms (join_room c sk);
              displayName := Some (name_or_guest name) |}
      with (let sk1 := {| rooms := rooms (join_room c sk);
                          displayName := Some (name_or_guest name) |} in sk1).
    assert (in_room c {| rooms := rooms (join_room c sk);
                         displayName := Some (name_or_guest name) |} = true) as Hin
      by apply (in_room_join_room c sk).
    unfold join_room at 1. by rewrite Hin.
  - apply join_room_idempotent.
Qed.

(** A guest that joins a session it was not in and then leaves it: in the
    first revision the state is exactly what it was; in the later one the
    only trace is the recorded display name, which leaving does not
    clear. *)
Theorem join_then_leave st sid code c s name callback :
  known_session st code = Some c →
  sessions st !! c = Some s →
  hostId s ≠ sid →
  c ∉ rooms_of st sid →
  (Legacy.leave_session
     (Legacy.join_session st sid code name callback).1 sid code).1 = st
  ∧ (Server.leave_session
       (Server.join_session st sid code name callback).1 sid code).1
    = set_displayName st sid (name_or_guest name).
Proof.
  intros Hk Hs Hne Hc.
  unfold Legacy.leave_session, Server.leave_session, Legacy.join_session,
    Server.join_session. rewrite Hk. cbn [fst].
  rewrite (known_session_sessions st (socket_join st sid c)) by done.
  rewrite (known_session_sessions st
             (set_displayName (socket_join st sid c) sid (name_or_guest name)))
    by done.
  rewrite Hk.
  rewrite !depart_not_host by (by apply not_host_of with s).
  cbn [fst].
  assert (∀ sk, sockets st !! sid = Some sk → c ∉ rooms sk) as Hsk.
  { intros sk Hsk. unfold rooms_of in Hc. by rewrite Hsk in Hc. }
  split; apply state_eq; try done; cbn; apply map_eq; intros p;
    (destruct (decide (p = sid)) as [-> | Hp];
     [| by rewrite !lookup_alter_ne by done]);
    rewrite !lookup_alter_eq; destruct (sockets st !! sid) as [sk|] eqn:E;
    try done; simpl; f_equal.
  - apply leave_join_room. by apply Hsk.
  - unfold leave_room. simpl.
    pose proof (leave_join_room c sk (Hsk _ eq_refl)) as Hl.
    apply (f_equal rooms) in Hl. simpl in Hl. by rewrite Hl.
Qed.

Lemma join_then_leave_witness :
  (Legacy.leave_session
     (Legacy.join_session hosted "g" (Some "AAAAAA") (Some "Sam") true).1
     "g" (Some "AAAAAA")).1 = hosted.
Proof.
  apply (join_then_leave hosted "g" (Some "AAAAAA") "AAAAAA" {| hostId := "h" |}
           (Some "Sam") true).
  - by vm_compute.
  - by vm_compute.
  - done.
  - vm_compute. intros [[=] | Hnil]%elem_of_cons.
    by apply elem_of_nil in Hnil.
Defined.


Lemma name_or_guest_nonempty name : name_or_guest name ≠ "".
Proof.
  unfold name_or_guest, non_blank. destruct name as [n|]; [| done].
  destruct (truthy_str n) eqn:Hn; [| done]. simpl.
  destruct (truthy_str (trim n)); [| done]. by apply truthy_str_true.
Qed.



(** ** Leaving *)

Lemma known_session_unknown st code :
  (code = None ∨ code = Some ""
   ∨ ∃ c, code = Some c ∧ sessions st !! c = None ∧ c ∉ object_prototype_keys) →
  known_session st code = None.
Proof.
  intros Hcode. destruct (known_session st code) as [c|] eqn:E; [| done].
  apply known_session_Some in E as (-> & Hne & Ht).
  destruct Hcode as [? | [[= ->] | (c' & [= <-] & Hc & Hp)]]; [done.. |].
  unfold sessions_get in Ht. rewrite Hc in Ht.
  by rewrite bool_decide_eq_false_2 in Ht.
Qed.

Lemma known_session_own st c s :
  sessions st !! c = Some s → c ≠ "" → known_session st (Some c) = Some c.
Proof.
  intros Hs Hne. apply known_session_Some. split; [done |]. split; [done |].
  by rewrite (sessions_get_own _ _ _ Hs).
Qed.

(** [leave-session] by a connection that is not the host of the named
    session, whether or not it was in the room: the room without the caller
    gets one [user-left]; the caller is out of the room afterwards; the
    registry, the other rooms and the other connections are untouched. *)
Theorem guest_leave_session st sid code s :
  valid_registry (sessions st) →
  sessions st !! code = Some s →
  hostId s ≠ sid →
  Server.leave_session st sid (Some code) =
    (socket_leave st sid code,
     [ToRoom code (members st code ∖ {[sid]})
        (UserLeft sid (Some (Server.leaver_name (name_of st sid))))])
  ∧ Legacy.leave_session st sid (Some code) =
      (socket_leave st sid code,
       [ToRoom code (members st code ∖ {[sid]}) (UserLeft sid None)])
  ∧ sessions (socket_leave st sid code) = sessions st
  ∧ (code ∉ rooms_of (socket_leave st sid code) sid)
  ∧ (∀ r, r ≠ code →
          (r ∈ rooms_of (socket_leave st sid code) sid ↔ r ∈ rooms_of st sid))
  ∧ ∀ p, p ≠ sid → rooms_of (socket_leave st sid code) p = rooms_of st p.
Proof.
  intros Hv Hs Hne.
  pose proof (valid_registry_truthy _ _ _ Hv Hs) as Ht%truthy_str_true.
  unfold Server.leave_session, Legacy.leave_session.
  rewrite (known_session_own _ _ _ Hs Ht).
  rewrite !depart_not_host by (by apply not_host_of with s).
  rewrite name_of_socket_leave, members_socket_leave.
  split; [done |]. split; [done |]. split; [done |].
  split; [| split].
  - rewrite rooms_of_socket_leave, decide_True by done.
    rewrite list_elem_of_filter. by intros [? _].
  - intros r Hr. rewrite rooms_of_socket_leave, decide_True by done.
    rewrite list_elem_of_filter. split; [by intros [_ ?] | done].
  - intros p Hp. by rewrite rooms_of_socket_leave, decide_False.
Qed.

Lemma guest_leave_session_witness :
  Legacy.leave_session shared "g" (Some "AAAAAA") =
    (socket_leave shared "g" "AAAAAA",
     [ToRoom "AAAAAA" (members shared "AAAAAA" ∖ {[ "g" ]}) (UserLeft "g" None)]).
Proof.
  apply (guest_leave_session shared "g" "AAAAAA" {| hostId := "h" |}).
  - exact valid_registry_shared.
  - by vm_compute.
  - done.
Defined.

(** Requests that name a code which is missing, empty, or neither a key of
    the registry nor a property name of [Object.prototype]:
    [leave-session] does nothing at all, and [transfer-host] is answered
    with the invalid-session error to the caller, the state unchanged. *)
Theorem unknown_code_requests st sid code :
  (code = None ∨ code = Some ""
   ∨ ∃ c, code = Some c ∧ sessions st !! c = None ∧ c ∉ object_prototype_keys) →
  Server.leave_session st sid code = (st, [])
  ∧ Legacy.leave_session st sid code = (st, [])
  ∧ ∀ newHostId,
      transfer_host st sid code newHostId =
        (st, [Emit sid (Error "Invalid session for host transfer")]).
Proof.
  intros Hk%known_session_unknown.
  unfold Server.leave_session, Legacy.leave_session, transfer_host.
  by rewrite Hk.
Qed.

Lemma unknown_code_requests_witness :
  Server.leave_session shared "g" (Some "ZZZZZZ") = (shared, []).
Proof.
  apply (unknown_code_requests shared "g" (Some "ZZZZZZ")).
  right. right. exists "ZZZZZZ". split; [done |]. split; [by vm_compute |].
  unfold object_prototype_keys. intros Hin.
  repeat (apply elem_of_cons in Hin as [[=] | Hin]).
  by apply elem_of_nil in Hin.
Defined.

Lemma find_all_false {A} (f : A → bool) (l : list A) :
  (∀ x, In x l → f x = false) → List.find f l = None.
Proof.
  induction l as [|x l IH]; [done |]. intros Hall. simpl.
  rewrite (Hall x) by by left. apply IH. intros y Hy. apply Hall. by right.
Qed.

(** Once the host has left, the session is dead for those it leaves
    behind.  A guest whose only rooms were its own and the session's is still
    in the room, but its chat messages are dropped without a word, its
    [playback-control] is refused, and it cannot join the code again. *)
Theorem ended_session_strands_guest st h code p :
  valid_registry (sessions st) →
  sessions st !! code = Some {| hostId := h |} →
  p ≠ h →
  current_session st p = Some code →
  (∀ r, r ∈ rooms_of st p → r = p ∨ r = code) →
  let st' := (Server.leave_session st h (Some code)).1 in
  sessions st' = delete code (sessions st)
  ∧ code ∈ rooms_of st' p
  ∧ (∀ user message time,
       Server.chat_message st' p user message time = (st', []))
  ∧ (∀ data,
       playback_control st' p data =
         (st', [Emit p (Error "Only host can control playback")]))
  ∧ ∀ name callback,
      Server.join_session st' p (Some code) name callback =
        (st', (if callback then [Ack false] else [])
                ++ [Emit p (Error "Invalid session code")]).
Proof.
  intros Hv Hs Hp Hcur Hrooms st'.
  pose proof (valid_registry_truthy _ _ _ Hv Hs) as Ht%truthy_str_true.
  assert (st' = with_sessions (socket_leave st h code) (delete code)) as Hst'.
  { unfold st', Server.leave_session.
    rewrite (known_session_own _ _ _ Hs Ht). by rewrite depart_host. }
  assert (rooms_of st' p = rooms_of st p) as Hr.
  { rewrite Hst'. change (rooms_of (with_sessions ?s _) p) with (rooms_of s p).
    by rewrite rooms_of_socket_leave, decide_False. }
  assert (truthy (sessions_get (sessions st') code) = false) as Hgone.
  { rewrite Hst'. unfold sessions_get. simpl. rewrite lookup_delete_eq.
    rewrite bool_decide_eq_false_2; [done |].
    apply is_code_not_inherited. by apply (Hv code _ Hs). }
  assert (current_session st' p = None) as Hnone.
  { unfold current_session. rewrite Hr. apply find_all_false.
    intros r [-> | ->]%list_elem_of_In%Hrooms.
    - by rewrite String.eqb_refl.
    - by rewrite Hgone, andb_false_r. }
  split; [by rewrite Hst' |]. split.
  { rewrite Hr. by apply current_session_Some in Hcur as [? _]. }
  split; [| split].
  - intros. unfold Server.chat_message. by rewrite Hnone.
  - intros. unfold playback_control. by rewrite Hnone.
  - intros. unfold Server.join_session, known_session.
    by rewrite (proj2 (truthy_str_true code) Ht), Hgone.
Qed.

Lemma ended_session_strands_guest_witness :
  Server.chat_message (Server.leave_session shared "h" (Some "AAAAAA")).1
    "g" (Some "Sam") "anyone there?" "12:05"
  = ((Server.leave_session shared "h" (Some "AAAAAA")).1, []).
Proof.
  refine (proj1 (proj2 (proj2
    (ended_session_strands_guest shared "h" "AAAAAA" "g" _ _ _ _ _))) _ _ _).
  - exact valid_registry_shared.
  - by vm_compute.
  - done.
  - by vm_compute.
  - vm_compute. intros r [-> | [-> | Hnil]%elem_of_cons]%elem_of_cons; auto.
    by apply elem_of_nil in Hnil.
Defined.

(** ** Host transfer and host-only requests *)

(** [transfer-host] never adds or removes a session and never touches a
    connection: whatever the request, the set of codes, the rooms and the
    names are as before, and so is every session other than the named
    one. *)
Theorem transfer_host_frame st sid code newHostId :
  let st' := (transfer_host st sid code newHostId).1 in
  sockets st' = sockets st
  ∧ draws st' = draws st
  ∧ dom (sessions st') = dom (sessions st)
  ∧ ∀ c, code ≠ Some c → sessions st' !! c = sessions st !! c.
Proof.
  intros st'. unfold st', transfer_host.
  destruct (known_session st code) as [c|] eqn:Hk; [| done].
  apply known_session_Some in Hk as (-> & _ & _).
  destruct (is_host sid (sessions_get (sessions st) c)) eqn:Hh; [| done].
  apply is_host_spec in Hh. cbn.
  split; [done |]. split; [done |]. split.
  - rewrite dom_insert_L. apply subseteq_union_1_L, singleton_subseteq_l.
    apply elem_of_dom. eauto.
  - intros c' Hc'. rewrite lookup_insert_ne; [done |]. by intros ->.
Qed.

(** Host rights handed over and handed back: when the host transfers to
    [g] and [g] transfers back, the state is exactly the one before, and
    both transfers are announced to the room.  [g] needs not be in the
    room, nor even connected. *)
Theorem transfer_host_and_back st h g code :
  valid_registry (sessions st) →
  sessions st !! code = Some {| hostId := h |} →
  let st1 := (transfer_host st h (Some code) g).1 in
  transfer_host st h (Some code) g =
    (st1, [ToRoom code (members st code) (HostTransferred g)])
  ∧ sessions st1 !! code = Some {| hostId := g |}
  ∧ transfer_host st1 g (Some code) h =
      (st, [ToRoom code (members st code) (HostTransferred h)]).
Proof.
  intros Hv Hs st1.
  pose proof (valid_registry_truthy _ _ _ Hv Hs) as Ht%truthy_str_true.
  unfold st1. rewrite (transfer_host_by_host _ _ _ _ Hs Ht). cbn [fst].
  split; [done |]. split; [apply lookup_insert_eq |].
  rewrite (transfer_host_by_host _ g code h); [| apply lookup_insert_eq | done].
  f_equal. apply state_eq; try done. cbn.
  rewrite insert_insert_eq. by apply insert_id.
Qed.

Lemma transfer_host_and_back_witness :
  transfer_host (transfer_host shared "h" (Some "AAAAAA") "g").1
    "g" (Some "AAAAAA") "h"
  = (shared, [ToRoom "AAAAAA" (members shared "AAAAAA") (HostTransferred "h")]).
Proof.
  apply (transfer_host_and_back shared "h" "g" "AAAAAA").
  - exact valid_registry_shared.
  - by vm_compute.
Defined.

(** What the host's requests reach.  The host of the session its scan finds
    is itself in the room, so [playback-control] and [sync-state] come back
    to it along with everyone else; [provide-state] goes to whoever is in
    the room named [forUser], and neither that room nor its members are
    checked against the caller's session.  None of the three changes the
    state. *)
Theorem host_requests_reach_room st sid c :
  valid_registry (sessions st) →
  current_session st sid = Some c →
  sessions st !! c = Some {| hostId := sid |} →
  sid ∈ members st c
  ∧ (∀ data,
       playback_control st sid data =
         (st, [ToRoom c (members st c) (PlaybackControl data)]))
  ∧ (∀ data,
       sync_state st sid data = (st, [ToRoom c (members st c) (SyncState data)]))
  ∧ ∀ forUser data,
      provide_state st sid forUser data =
        (st, [ToRoom forUser (members st forUser) (SyncState data)])
      ∧ ∀ p, p ∈ members st forUser ↔ forUser ∈ rooms_of st p.
Proof.
  intros Hv Hcur Hs.
  pose proof (valid_registry_truthy _ _ _ Hv Hs) as Ht%truthy_str_true.
  assert (hosted_session st sid (current_session st sid) = Some c) as Hh
    by by apply hosted_session_Some.
  split; [| split; [| split]].
  - apply elem_of_members. by apply current_session_Some in Hcur as [? _].
  - intros. unfold playback_control. by rewrite Hh.
  - intros. unfold sync_state. by rewrite Hh.
  - intros. unfold provide_state. rewrite Hh. split; [done |].
    intros p. apply elem_of_members.
Qed.

Lemma host_requests_reach_room_witness :
  "h" ∈ members shared "AAAAAA"
  ∧ sync_state shared "h" "00:42" =
      (shared, [ToRoom "AAAAAA" (members shared "AAAAAA") (SyncState "00:42")]).
Proof.
  destruct (host_requests_reach_room shared "h" "AAAAAA")
    as (Hin & _ & Hsync & _).
  - exact valid_registry_shared.
  - by vm_compute.
  - by vm_compute.
  - split; [done | apply Hsync].
Defined.

(** ** Chat and media *)

Lemma chat_name_nonempty recorded user : Server.chat_name recorded user ≠ "".
Proof.
  unfold Server.chat_name.
  assert (match user with
          | Some u => if truthy_str u && truthy_str (trim u) then trim u else "Guest"
          | None => "Guest"
          end ≠ "") as Hsupplied.
  { destruct user as [u|]; [| done].
    destruct (truthy_str u); [| done]. simpl.
    destruct (truthy_str (trim u)) eqn:E; [| done]. by apply truthy_str_true. }
  destruct recorded as [n|]; [| done].
  destruct (truthy_str n) eqn:E; [| done]. by apply truthy_str_true.
Qed.

(** [chat-message] never changes the state.  From a caller whose scan finds
    no session it is dropped without any emission.  Otherwise it goes once to
    the caller's room, the caller included, with [message] and [time] as
    sent and a [user] field that is never empty. *)
Theorem chat_message_delivery st sid user message time :
  (current_session st sid = None →
     Server.chat_message st sid user message time = (st, [])
     ∧ Legacy.chat_message st sid user message time = (st, []))
  ∧ ∀ c, current_session st sid = Some c → c ≠ "" →
         sid ∈ members st c
         ∧ ∃ n n',
             n ≠ "" ∧ n' ≠ ""
             ∧ Server.chat_message st sid user message time =
                 (st, [ToRoom c (members st c) (ChatMessage n message time)])
             ∧ Legacy.chat_message st sid user message time =
                 (st, [ToRoom c (members st c) (ChatMessage n' message time)]).
Proof.
  unfold Server.chat_message, Legacy.chat_message. split.
  - by intros ->.
  - intros c Hcur Hc%truthy_str_true. split.
    + apply elem_of_members. by apply current_session_Some in Hcur as [? _].
    + exists (Server.chat_name (name_of st sid) user), (name_or_guest user).
      rewrite Hcur, Hc.
      split; [apply chat_name_nonempty |].
      split; [apply name_or_guest_nonempty | done].
Qed.

(** [media-share] never changes the state and never looks at the caller:
    for a code that is a key of the registry, the room gets the event with
    [user], [fileUrl] and [fileType] as sent, whether or not the caller is
    in that room; for a missing code, or one that is neither a key nor a
    property name of [Object.prototype], nothing is emitted. *)
Theorem media_share_delivery st sid code fileUrl fileType user :
  valid_registry (sessions st) →
  (∀ c s, code = Some c → sessions st !! c = Some s →
          Server.media_share st sid code fileUrl fileType user =
            (st, [ToRoom c (members st c) (MediaShare user fileUrl fileType)]))
  ∧ (code = None
     ∨ (∃ c, code = Some c ∧ sessions st !! c = None
             ∧ c ∉ object_prototype_keys) →
     Server.media_share st sid code fileUrl fileType user = (st, [])).
Proof.
  intros Hv. unfold Server.media_share. split.
  - intros c s -> Hs. simpl. by rewrite (sessions_get_own _ _ _ Hs).
  - intros [-> | (c & -> & Hc & Hp)]; simpl.
    + unfold sessions_get.
      destruct (sessions st !! "undefined") as [s|] eqn:E; [| done].
      by apply Hv in E.
    + unfold sessions_get. rewrite Hc. by rewrite bool_decide_eq_false_2.
Qed.

Lemma media_share_delivery_witness :
  Server.media_share shared "g" None (Some "https://cdn.example/a.png")
    (Some "image/png") (Some "Sam") = (shared, []).
Proof.
  apply (media_share_delivery shared "g" None); [exact valid_registry_shared |].
  by left.
Defined.

(** ** Codes that are property names of [Object.prototype] *)

Lemma inherited_key_nonempty k : k ∈ object_prototype_keys → k ≠ "".
Proof.
  unfold object_prototype_keys. intros Hin.
  repeat (apply elem_of_cons in Hin as [-> | Hin]; [done |]).
  by apply elem_of_nil in Hin.
Qed.

Lemma inherited_key_not_own (m : gmap string session) k :
  valid_registry m → k ∈ object_prototype_keys → m !! k = None.
Proof.
  intros Hv Hk. destruct (m !! k) as [s|] eqn:E; [| done].
  apply Hv in E. by apply is_code_not_inherited in E.
Qed.

Lemma inherited_key_get (m : gmap string session) k :
  valid_registry m → k ∈ object_prototype_keys → sessions_get m k = Inherited.
Proof.
  intros Hv Hk. unfold sessions_get.
  by rewrite (inherited_key_not_own m k Hv Hk), bool_decide_eq_true_2.
Qed.

(** A request naming a property name of [Object.prototype] passes every
    existence test but never touches the registry: [join-session] puts the
    connected caller in a room of that name, broadcasts [user-joined] with
    [isHost] false to that room, acknowledges [true] and sends
    [request-state] to nobody; [transfer-host] is refused as coming from a
    non-host; [leave-session] takes the caller out of that room and
    announces [user-left] to it; [media-share] is broadcast to it. *)
Theorem inherited_key_requests st sid k :
  k ∈ object_prototype_keys →
  valid_registry (sessions st) →
  is_Some (sockets st !! sid) →
  (∀ name callback,
     let r := Server.join_session st sid (Some k) name callback in
     sessions r.1 = sessions st
     ∧ k ∈ rooms_of r.1 sid
     ∧ members r.1 k = members st k ∪ {[sid]}
     ∧ r.2 = [ ToRoom k (members st k ∪ {[sid]})
                 (UserJoined sid (Some (name_or_guest name)) false);
               Emit sid (SessionJoined k false (name_or_guest name)) ]
             ++ (if callback then [Ack true] else [])
             ++ [ToOthers None ∅ (RequestState sid)])
  ∧ (∀ newHostId,
       transfer_host st sid (Some k) newHostId =
         (st, [Emit sid (Error "Only the current host can transfer host rights")]))
  ∧ Server.leave_session st sid (Some k) =
      (socket_leave st sid k,
       [ToRoom k (members st k ∖ {[sid]})
          (UserLeft sid (Some (Server.leaver_name (name_of st sid))))])
  ∧ sessions (socket_leave st sid k) = sessions st
  ∧ (k ∉ rooms_of (socket_leave st sid k) sid)
  ∧ ∀ fileUrl fileType user,
      Server.media_share st sid (Some k) fileUrl fileType user =
        (st, [ToRoom k (members st k) (MediaShare user fileUrl fileType)]).
Proof.
  intros Hk Hv Hcon.
  pose proof (inherited_key_get _ _ Hv Hk) as Hget.
  pose proof (inherited_key_nonempty _ Hk) as Hne.
  assert (known_session st (Some k) = Some k) as Hknown.
  { apply known_session_Some. by rewrite Hget. }
  split; [| split; [| split; [| split; [| split]]]].
  - intros name callback r. unfold r, Server.join_session. rewrite Hknown.
    cbn [fst snd]. split; [done |].
    split; [rewrite rooms_of_set_displayName; by apply rooms_of_join_has |].
    rewrite members_set_displayName, members_socket_join by done.
    split; [done |]. unfold join_success.
    cbn [sessions set_displayName socket_join with_sockets]. rewrite Hget.
    cbn [is_host host_of].
    by rewrite members_set_displayName, members_socket_join by done.
  - intros newHostId. unfold transfer_host. by rewrite Hknown, Hget.
  - unfold Server.leave_session. rewrite Hknown.
    rewrite depart_not_host.
    + by rewrite name_of_socket_leave, members_socket_leave.
    + simpl. by rewrite (inherited_key_not_own _ _ Hv Hk).
  - done.
  - rewrite rooms_of_socket_leave, decide_True by done.
    rewrite list_elem_of_filter. by intros [? _].
  - intros. unfold Server.media_share. simpl. by rewrite Hget.
Qed.

Lemma inherited_key_requests_witness :
  "toString" ∈ rooms_of
    (Server.join_session lobby "g" (Some "toString") (Some "Sam") true).1 "g"
  ∧ transfer_host lobby "g" (Some "toString") "g" =
      (lobby, [Emit "g" (Error "Only the current host can transfer host rights")]).
Proof.
  destruct (inherited_key_requests lobby "g" "toString")
    as (Hjoin & Htransfer & _).
  - unfold object_prototype_keys. do 8 apply list_elem_of_further.
    apply list_elem_of_here.
  - apply map_Forall_empty.
  - vm_compute. by eexists.
  - split; [| apply Htransfer].
    by destruct (Hjoin (Some "Sam") true) as (_ & Hin & _).
Defined.

(** A connection whose scan finds a room named after a property of
    [Object.prototype] is locked out of hosting: it can create a session and
    is recorded as its host, but the scan keeps finding the earlier room, so
    its [playback-control] is refused and its [sync-state] is dropped. *)
Theorem inherited_room_blocks_host rnd fuel st sid k st' out :
  k ∈ object_prototype_keys →
  valid_registry (sessions st) →
  current_session st sid = Some k →
  (∀ r, r ∈ rooms_of st sid → is_code r = false) →
  create_session rnd fuel st sid = Some (st', out) →
  ∃ code,
    issued out = [code]
    ∧ sessions st' !! code = Some {| hostId := sid |}
    ∧ current_session st' sid = Some k
    ∧ (∀ data,
         playback_control st' sid data =
           (st', [Emit sid (Error "Only host can control playback")]))
    ∧ ∀ data, sync_state st' sid data = (st', []).
Proof.
  intros Hk Hv Hcur Hrooms Hcr.
  pose proof (create_session_spec rnd fuel st sid) as Hsp.
  rewrite Hcr in Hsp. destruct Hsp as (code & -> & Hcode & Hfree & Hst' & Hsock).
  assert (k ≠ code) as Hkc.
  { intros ->. by apply is_code_not_inherited in Hcode. }
  assert (sessions st' !! k = None) as Hk'.
  { rewrite Hst', lookup_insert_ne by done. by apply inherited_key_not_own. }
  assert (current_session st' sid = Some k) as Hcur'.
  { unfold current_session in *. unfold rooms_of at 1. rewrite Hsock.
    fold (rooms_of (socket_join st sid code) sid).
    assert (List.find
              (λ r, negb (String.eqb r sid) && truthy (sessions_get (sessions st') r))
              (rooms_of st sid) = Some k) as Hfind.
    { rewrite <- Hcur. clear Hcur.
      induction (rooms_of st sid) as [|r l IH]; [done |]. simpl.
      assert (truthy (sessions_get (sessions st') r)
              = truthy (sessions_get (sessions st) r)) as ->.
      { unfold sessions_get. rewrite Hst', lookup_insert_ne; [done |].
        intros <-. specialize (Hrooms code (list_elem_of_here _ _)). congruence. }
      rewrite IH; [done |]. intros x Hx. apply Hrooms. by apply list_elem_of_further. }
    rewrite rooms_of_socket_join, decide_True by done.
    case_decide; [done | by apply find_app_l]. }
  assert (hosted_session st' sid (current_session st' sid) = None) as Hn.
  { apply hosted_session_None. intros c. rewrite Hcur'. intros [= <-] _.
    by rewrite Hk'. }
  exists code. split; [done |].
  split; [rewrite Hst'; apply lookup_insert_eq |]. split; [done |].
  unfold playback_control, sync_state. by rewrite Hn.
Qed.

Lemma inherited_room_blocks_host_witness :
  ∃ code,
    sessions (state_after (create_session rnd_blocks 1 stray "g")) !! code
      = Some {| hostId := "g" |}
    ∧ playback_control (state_after (create_session rnd_blocks 1 stray "g"))
        "g" "play"
      = (state_after (create_session rnd_blocks 1 stray "g"),
         [Emit "g" (Error "Only host can control playback")]).
Proof.
  destruct (inherited_room_blocks_host rnd_blocks 1 stray "g" "constructor"
              (state_after (create_session rnd_blocks 1 stray "g"))
              [ Emit "g" (SessionCreated "AAAAAA");
                Emit "g" (UserJoined "g" None true) ])
    as (code & _ & Hhost & _ & Hplay & _).
  - apply list_elem_of_here.
  - apply map_Forall_empty.
  - by vm_compute.
  - vm_compute. intros r [-> | [-> | Hnil]%elem_of_cons]%elem_of_cons;
      [done | done | by apply elem_of_nil in Hnil].
  - by vm_compute.
  - exists code. split; [done | apply Hplay].
Defined.

(** ** Witnesses for the registry invariant and the refused join *)

Lemma reachable_valid_witness :
  valid_registry (sessions two_sessions).
Proof. exact (reachable_valid rnd_blocks two_sessions two_sessions_reachable). Defined.

Lemma join_session_refused_witness :
  Server.join_session shared "g" (Some "") (Some "Sam") true =
    (shared, [Ack false; Emit "g" (Error "Invalid session code")]).
Proof.
  refine (proj1 (join_session_refused shared "g" (Some "") (Some "Sam") true _)).
  right. by left.
Defined.

(** ** Disconnecting, and the host leaving *)

(** The ['disconnect'] event never does anything, for any connection in
    any state: the listener, run on the emptied rooms, emits nothing and
    leaves the registry as it is.  The event's only effect is the
    transport's own (the connection is out of every room; the other
    connections and the display names are as before), so a session whose
    host disconnects stays in the registry, still recorded under that
    host.  Both revisions. *)
Theorem disconnect_event_does_nothing st sid :
  (Server.on_close st sid).2 = []
  ∧ (Legacy.on_close st sid).2 = []
  ∧ sessions (Server.on_close st sid).1 = sessions st
  ∧ sessions (Legacy.on_close st sid).1 = sessions st
  ∧ (Legacy.on_close st sid).1 = (Server.on_close st sid).1
  ∧ rooms_of (Server.on_close st sid).1 sid = []
  ∧ (∀ room, sid ∉ members (Server.on_close st sid).1 room)
  ∧ (∀ p, p ≠ sid → rooms_of (Server.on_close st sid).1 p = rooms_of st p)
  ∧ ∀ p, name_of (Server.on_close st sid).1 p = name_of st p.
Proof.
  destruct (on_close_spec st sid) as [-> ->]. cbn [fst snd].
  assert (rooms_of (leave_all st sid) sid = []) as Hempty
    by by rewrite rooms_of_leave_all, decide_True.
  repeat (split; [done |]). split; [| split].
  - intros room Hin%elem_of_members. rewrite Hempty in Hin.
    by apply elem_of_nil in Hin.
  - intros p Hp. by rewrite rooms_of_leave_all, decide_False.
  - intros p. unfold name_of, leave_all, with_sockets. simpl.
    destruct (decide (p = sid)) as [-> | Hp]; [| by rewrite lookup_alter_ne].
    rewrite lookup_alter_eq. by destruct (sockets st !! sid).
Qed.

(** [leave-session] from the host of the named session ends it: the room
    without the host gets [user-left] and then [session-ended], the session
    is deleted, and every other session stays.  From anyone else, whatever
    code is named, the session stays in the registry.  Both revisions. *)
Theorem host_leave_ends_session st sid code s :
  valid_registry (sessions st) →
  sessions st !! code = Some s →
  (hostId s = sid →
     ends_session st sid code (members st code ∖ {[sid]})
       (Server.leave_session st sid (Some code))
     ∧ ends_session st sid code (members st code ∖ {[sid]})
         (Legacy.leave_session st sid (Some code))
     ∧ (code ∉ rooms_of (Server.leave_session st sid (Some code)).1 sid)
     ∧ ∀ c, c ≠ code →
            sessions (Server.leave_session st sid (Some code)).1 !! c
            = sessions st !! c)
  ∧ (hostId s ≠ sid →
       ∀ code',
         sessions (Server.leave_session st sid code').1 !! code = Some s
         ∧ sessions (Legacy.leave_session st sid code').1 !! code = Some s).
Proof.
  intros Hv Hs. pose proof (valid_registry_truthy _ _ _ Hv Hs) as Ht.
  split.
  - intros Hh. destruct s as [h]. simpl in Hh. subst h.
    assert (known_session st (Some code) = Some code) as Hk.
    { apply known_session_own with {| hostId := sid |}; [done |].
      by apply truthy_str_true. }
    unfold Server.leave_session, Legacy.leave_session. rewrite Hk.
    rewrite !depart_host by done. rewrite members_socket_leave. cbn [fst].
    split; [by split; [| eexists] |]. split; [by split; [| eexists] |]. split.
    + change (rooms_of (with_sessions ?x _) sid) with (rooms_of x sid).
      rewrite rooms_of_socket_leave, decide_True by done.
      rewrite list_elem_of_filter. by intros [? _].
    + intros c Hc. simpl. by rewrite lookup_delete_ne.
  - intros Hne code'. split.
    + unfold Server.leave_session. destruct (known_session st code'); [| done].
      by apply depart_keeps.
    + unfold Legacy.leave_session. destruct (known_session st code'); [| done].
      by apply depart_keeps.
Qed.

Lemma host_leave_ends_session_witness :
  ends_session shared "h" "AAAAAA" (members shared "AAAAAA" ∖ {[ "h" ]})
    (Server.leave_session shared "h" (Some "AAAAAA")).
Proof.
  apply (host_leave_ends_session shared "h" "AAAAAA" {| hostId := "h" |}).
  - exact valid_registry_shared.
  - by vm_compute.
  - reflexivity.
Defined.
